(** * Drivers and laps: a shallow embedding of [main.py]

    The program is a FastAPI application over two SQLAlchemy tables,
    [drivers] and [laps].  Every endpoint receives a database session,
    queries it, possibly registers changes, commits once and returns an
    object that FastAPI serialises through the endpoint's response model.

    The embedding keeps that shape:
    - a table is the list of its rows in the order they were inserted
      (a query without ORDER BY scans the table in that order);
    - a session holds the committed database and the changes registered
      since the last commit; [commit] applies them in one transaction or
      raises [IntegrityError] and rolls back; the constraints a statement
      can break are the primary key of its table and the NOT NULL of
      [lap_time] (the foreign key of [laps] is declared, and it is the
      endpoints that keep it);
    - an endpoint is a computation in a state and exception monad over the
      session, written line by line after the Python function;
    - [uuid.uuid4()] reads sixteen random bytes; they are an explicit
      argument of the endpoints that draw an identifier. *)

From Stdlib Require Import List String Ascii Bool Arith NArith ZArith Lia.
From Stdlib Require Import Permutation.
From Stdlib Require Import Floats.SpecFloat.
Import ListNotations.

Local Open Scope string_scope.
Local Open Scope list_scope.

(** ** Column values *)

(** [Column(Float)] and Python's [float]: IEEE 754 binary64 data. *)
Definition float : Set := spec_float.

(** What the column [lap_time = Column(Float, nullable=False)] keeps of a
    value written to it.  A NaN is bound as NULL, which the column refuses.
    A zero is kept as the integer 0 and read back as +0.0: the sign of -0.0
    is lost.  Every other value is read back as it was written. *)
Definition stored_real (x : float) : option float :=
  match x with
  | S754_nan => None
  | S754_zero _ => Some (S754_zero false)
  | S754_infinity _ | S754_finite _ _ _ => Some x
  end.

(** [x == y], the equality of Python floats. *)
Definition same_number (x y : float) : bool := SFeqb x y.

(** [0.0 < x], the comparison of Python floats. *)
Definition positive_time (x : float) : bool := SFltb (S754_zero false) x.

(** ** Database models *)

(** class DriverDB: table "drivers", primary key [id]. *)
Record DriverDB : Set := mkDriverDB {
  DriverDB_id : string;
  DriverDB_name : string
}.

(** class LapDB: table "laps", primary key [id], foreign key [driver_id]. *)
Record LapDB : Set := mkLapDB {
  LapDB_id : string;
  LapDB_lap_time : float;
  LapDB_track : string;
  LapDB_driver_id : string
}.

(** The committed content of the two tables. *)
Record Database : Set := mkDatabase {
  drivers : list DriverDB;
  laps : list LapDB
}.

(** The store before anything was written: [create_all] on a new file. *)
Definition empty_database : Database := {| drivers := []; laps := [] |}.

(** ** Pydantic schemas *)

Record DriverCreate : Set := mkDriverCreate { DriverCreate_name : string }.
Record DriverUpdate : Set := mkDriverUpdate { DriverUpdate_name : string }.

Record Lap : Set := mkLap {
  Lap_id : option string;
  Lap_lap_time : float;
  Lap_track : string
}.

Record Driver : Set := mkDriver {
  Driver_name : string;
  Driver_id : option string;
  Driver_laps : list Lap
}.

Record LapCreate : Set := mkLapCreate {
  LapCreate_lap_time : float;
  LapCreate_track : string
}.

Record LapUpdate : Set := mkLapUpdate {
  LapUpdate_lap_time : float;
  LapUpdate_track : string
}.

(** ** Identifiers: [str(uuid.uuid4())] *)

Module UUID.

(** [uuid.uuid4()]: the integer of sixteen random bytes with the variant
    and version bits forced. *)
Definition uuid4 (random_bytes : N) : N :=
  let int := N.modulo random_bytes (2 ^ 128) in
  let int := N.ldiff int (N.shiftl 0xc000 48) in
  let int := N.lor int (N.shiftl 0x8000 48) in
  let int := N.ldiff int (N.shiftl 0xf000 64) in
  N.lor int (N.shiftl 4 76).

Definition hex_digit (d : N) : ascii :=
  match d with
  | 0 => "0" | 1 => "1" | 2 => "2" | 3 => "3" | 4 => "4" | 5 => "5"
  | 6 => "6" | 7 => "7" | 8 => "8" | 9 => "9" | 10 => "a" | 11 => "b"
  | 12 => "c" | 13 => "d" | 14 => "e" | _ => "f"
  end%N%char.

(** The [k]-th hexadecimal digit of [int], counted from the right. *)
Definition nibble (int : N) (k : nat) : ascii :=
  hex_digit (N.land (N.shiftr int (4 * N.of_nat k)) 15).

(** ['%032x' % int], for [int] below [2 ^ 128]. *)
Definition hex32 (int : N) : list ascii :=
  map (nibble int) (rev (seq 0 32)).

Definition slice (lo hi : nat) (l : list ascii) : list ascii :=
  firstn (hi - lo) (skipn lo l).

(** [UUID.__str__]: the groups 8-4-4-4-12 joined by hyphens. *)
Definition str (int : N) : string :=
  let hex := hex32 int in
  let dash := "-"%char in
  string_of_list_ascii
    (slice 0 8 hex ++ dash :: slice 8 12 hex ++ dash :: slice 12 16 hex
     ++ dash :: slice 16 20 hex ++ dash :: slice 20 32 hex).

End UUID.

(** [str(uuid.uuid4())] from the random bytes the call reads. *)
Definition new_id (random_bytes : N) : string :=
  UUID.str (UUID.uuid4 random_bytes).

(** ** Sessions *)

(** What an endpoint can raise.  The two 404 answers are the errors the
    specification calls DriverNotFound and LapNotFound; [IntegrityError] is
    what [commit] raises when a statement breaks a constraint;
    [InvalidRequestError] is what [refresh] raises for a row that is gone. *)
Inductive exn : Set :=
| HTTPException (status_code : nat) (detail : string)
| IntegrityError
| InvalidRequestError.

Definition DriverNotFound : exn := HTTPException 404 "Driver not found".
Definition LapNotFound : exn := HTTPException 404 "Lap not found".

Inductive result (A : Type) : Type :=
| Ok (a : A)
| Raised (e : exn).
Arguments Ok {A} a.
Arguments Raised {A} e.

(** A statement the unit of work emits at flush. *)
Inductive change : Set :=
| INSERT_INTO_drivers (row : DriverDB)
| INSERT_INTO_laps (row : LapDB)
| UPDATE_drivers (id name : string)
| UPDATE_laps (id : string) (lap_time : float) (track : string)
| DELETE_FROM_laps (id : string)
| DELETE_FROM_drivers (id : string).

Record Session : Set := mkSession {
  store : Database;
  pending : list change
}.

(** *** Reading the tables *)

(** SELECT ... FROM drivers WHERE drivers.id = ? LIMIT 1 *)
Definition first_driver (driver_id : string) (db : Database)
  : option DriverDB :=
  find (fun d => DriverDB_id d =? driver_id) (drivers db).

(** SELECT ... FROM laps WHERE laps.id = ? AND laps.driver_id = ? LIMIT 1 *)
Definition first_lap (lap_id driver_id : string) (db : Database)
  : option LapDB :=
  find (fun l => (LapDB_id l =? lap_id) && (LapDB_driver_id l =? driver_id))
       (laps db).

(** SELECT ... FROM laps WHERE laps.id = ?  (a row by its primary key) *)
Definition lap_by_id (lap_id : string) (db : Database) : option LapDB :=
  find (fun l => LapDB_id l =? lap_id) (laps db).

(** SELECT ... FROM laps WHERE ? = laps.driver_id *)
Definition laps_of (driver_id : string) (db : Database) : list LapDB :=
  filter (fun l => LapDB_driver_id l =? driver_id) (laps db).

(** *** Writing the tables *)

Definition has_driver (id : string) (db : Database) : bool :=
  existsb (fun d => DriverDB_id d =? id) (drivers db).

Definition has_lap (id : string) (db : Database) : bool :=
  existsb (fun l => LapDB_id l =? id) (laps db).

(** UPDATE drivers SET name = ? WHERE drivers.id = ?, on one row. *)
Definition set_name (id name : string) (d : DriverDB) : DriverDB :=
  if DriverDB_id d =? id
  then {| DriverDB_id := DriverDB_id d; DriverDB_name := name |}
  else d.

(** UPDATE laps SET lap_time = ?, track = ? WHERE laps.id = ?, on one row. *)
Definition set_fields (id : string) (lap_time : float) (track : string)
  (l : LapDB) : LapDB :=
  if LapDB_id l =? id
  then {| LapDB_id := LapDB_id l;
          LapDB_lap_time := lap_time;
          LapDB_track := track;
          LapDB_driver_id := LapDB_driver_id l |}
  else l.

(** One statement against the tables; [None] is a constraint violation: a
    primary key that is taken, or a [lap_time] that the column refuses.
    A new row goes to the end of its table, an UPDATE rewrites the row
    where it is, a DELETE leaves the other rows in place. *)
Definition execute (c : change) (db : Database) : option Database :=
  match c with
  | INSERT_INTO_drivers row =>
      if has_driver (DriverDB_id row) db then None
      else Some {| drivers := drivers db ++ [row]; laps := laps db |}
  | INSERT_INTO_laps row =>
      if has_lap (LapDB_id row) db then None
      else
        match stored_real (LapDB_lap_time row) with
        | Some t =>
            Some {| drivers := drivers db;
                    laps := laps db
                            ++ [ {| LapDB_id := LapDB_id row;
                                    LapDB_lap_time := t;
                                    LapDB_track := LapDB_track row;
                                    LapDB_driver_id := LapDB_driver_id row |} ]
                 |}
        | None => None
        end
  | UPDATE_drivers id name =>
      Some {| drivers := map (set_name id name) (drivers db);
              laps := laps db |}
  | UPDATE_laps id lap_time track =>
      match stored_real lap_time with
      | Some t =>
          Some {| drivers := drivers db;
                  laps := map (set_fields id t track) (laps db) |}
      | None => if has_lap id db then None else Some db
      end
  | DELETE_FROM_laps id =>
      Some {| drivers := drivers db;
              laps := filter (fun l => negb (LapDB_id l =? id)) (laps db) |}
  | DELETE_FROM_drivers id =>
      Some {| drivers :=
                filter (fun d => negb (DriverDB_id d =? id)) (drivers db);
              laps := laps db |}
  end.

(** The statements of one flush, in order, inside one transaction. *)
Fixpoint flush (cs : list change) (db : Database) : option Database :=
  match cs with
  | [] => Some db
  | c :: cs' =>
      match execute c db with
      | Some db' => flush cs' db'
      | None => None
      end
  end.

(** The monad of endpoint bodies: a session is threaded through, an
    exception stops the body. *)
Definition M (A : Type) : Type := Session -> result A * Session.

Definition ret {A : Type} (a : A) : M A := fun s => (Ok a, s).

Definition bind {A B : Type} (m : M A) (k : A -> M B) : M B :=
  fun s =>
    match m s with
    | (Ok a, s') => k a s'
    | (Raised e, s') => (Raised e, s')
    end.

Definition raise {A : Type} (e : exn) : M A := fun s => (Raised e, s).

Declare Scope session_scope.
Delimit Scope session_scope with session.
Notation "x <- m ;; k" := (bind m (fun x => k))
  (at level 61, m at next level, right associativity) : session_scope.
Notation "m ;; k" := (bind m (fun _ => k))
  (at level 61, right associativity) : session_scope.
Local Open Scope session_scope.

Fixpoint mapM {A B : Type} (f : A -> M B) (rows : list A) : M (list B) :=
  match rows with
  | [] => ret []
  | row :: rest => b <- f row ;; bs <- mapM f rest ;; ret (b :: bs)
  end.

(** *** Queries (the session does not autoflush: they read the store) *)

(** [db.query(DriverDB).filter(DriverDB.id == driver_id).first()] *)
Definition query_driver_first (driver_id : string) : M (option DriverDB) :=
  fun s => (Ok (first_driver driver_id (store s)), s).

(** [db.query(LapDB).filter(LapDB.id == lap_id,
                             LapDB.driver_id == driver_id).first()] *)
Definition query_lap_first (lap_id driver_id : string) : M (option LapDB) :=
  fun s => (Ok (first_lap lap_id driver_id (store s)), s).

(** [db.query(DriverDB).all()] *)
Definition query_drivers_all : M (list DriverDB) :=
  fun s => (Ok (drivers (store s)), s).

(** [db.query(DriverDB).count()] *)
Definition query_drivers_count : M nat :=
  fun s => (Ok (List.length (drivers (store s))), s).

(** [driver.laps]: the relationship, loaded when it is read. *)
Definition relationship_laps (driver : DriverDB) : M (list LapDB) :=
  fun s => (Ok (laps_of (DriverDB_id driver) (store s)), s).

(** *** Unit of work *)

Definition register (cs : list change) : M unit :=
  fun s => (Ok tt, {| store := store s; pending := pending s ++ cs |}).

(** [db.add(driver)]: the new driver and, by the save-update cascade, the
    new laps of its collection. *)
Definition add_driver (driver : DriverDB) (collection : list LapDB) : M unit :=
  register (INSERT_INTO_drivers driver :: map INSERT_INTO_laps collection).

(** [db.add(lap)] *)
Definition add_lap (lap : LapDB) : M unit := register [INSERT_INTO_laps lap].

(** [driver.name = name] *)
Definition set_driver_name (driver : DriverDB) (name : string) : M unit :=
  register [UPDATE_drivers (DriverDB_id driver) name].

(** [lap.lap_time = lap_time; lap.track = track] *)
Definition set_lap_fields (lap : LapDB) (lap_time : float) (track : string)
  : M unit :=
  register [UPDATE_laps (LapDB_id lap) lap_time track].

(** [db.delete(lap)] *)
Definition delete_lap_object (lap : LapDB) : M unit :=
  register [DELETE_FROM_laps (LapDB_id lap)].

(** [db.delete(driver)] under [cascade="all, delete-orphan"]: the laps of
    the relationship are deleted with the driver, by primary key. *)
Definition delete_driver_object (driver : DriverDB) : M unit :=
  owned <- relationship_laps driver ;;
  register (map (fun l => DELETE_FROM_laps (LapDB_id l)) owned
            ++ [DELETE_FROM_drivers (DriverDB_id driver)]).

(** [db.commit()]: all registered changes or none of them. *)
Definition commit : M unit :=
  fun s =>
    match flush (pending s) (store s) with
    | Some db' => (Ok tt, {| store := db'; pending := [] |})
    | None => (Raised IntegrityError, {| store := store s; pending := [] |})
    end.

(** [db.refresh(driver)]: the row read again by primary key. *)
Definition refresh_driver (driver : DriverDB) : M DriverDB :=
  fun s =>
    match first_driver (DriverDB_id driver) (store s) with
    | Some row => (Ok row, s)
    | None => (Raised InvalidRequestError, s)
    end.

(** [db.refresh(lap)] *)
Definition refresh_lap (lap : LapDB) : M LapDB :=
  fun s =>
    match lap_by_id (LapDB_id lap) (store s) with
    | Some row => (Ok row, s)
    | None => (Raised InvalidRequestError, s)
    end.

(** [get_db]: a session on the database for one request, closed on every
    exit; what was not committed is lost with it. *)
Definition get_db {A : Type} (endpoint : M A) (db : Database)
  : result A * Database :=
  let (r, s) := endpoint {| store := db; pending := [] |} in (r, store s).

(** *** Response models *)

(** [response_model=Lap] with [from_attributes]. *)
Definition Lap_from (lap : LapDB) : Lap :=
  {| Lap_id := Some (LapDB_id lap);
     Lap_lap_time := LapDB_lap_time lap;
     Lap_track := LapDB_track lap |}.

(** [response_model=Driver]: reading [laps] loads the relationship. *)
Definition Driver_from (driver : DriverDB) : M Driver :=
  owned <- relationship_laps driver ;;
  ret {| Driver_name := DriverDB_name driver;
         Driver_id := Some (DriverDB_id driver);
         Driver_laps := map Lap_from owned |}.

(** ** The application *)

(** The body of a deletion answer, [{"detail": ...}]. *)
Record Detail : Set := mkDetail { detail : string }.

(** 85.4 and 86.2 as binary64. *)
Definition lap_time_85_4 : float := S754_finite false 6009490752772506 (-46).
Definition lap_time_86_2 : float := S754_finite false 6065785748114637 (-46).

(** [lifespan], up to its [yield]: the example data, when there is no
    driver.  The three identifiers are drawn in the order of the source. *)
Definition lifespan (r_driver r_lap1 r_lap2 : N) : M unit :=
  n <- query_drivers_count ;;
  if Nat.eqb n 0 then
    let driver := {| DriverDB_id := new_id r_driver;
                     DriverDB_name := "Lewis Hamilton" |} in
    let lap1 := {| LapDB_id := new_id r_lap1;
                   LapDB_lap_time := lap_time_85_4;
                   LapDB_track := "Silverstone";
                   LapDB_driver_id := DriverDB_id driver |} in
    let lap2 := {| LapDB_id := new_id r_lap2;
                   LapDB_lap_time := lap_time_86_2;
                   LapDB_track := "Monza";
                   LapDB_driver_id := DriverDB_id driver |} in
    add_driver driver [lap1; lap2] ;;
    commit
  else ret tt.

(** *** Driver endpoints *)

Definition create_driver (random_bytes : N) (driver : DriverCreate)
  : M Driver :=
  let db_driver := {| DriverDB_id := new_id random_bytes;
                      DriverDB_name := DriverCreate_name driver |} in
  add_driver db_driver [] ;;
  commit ;;
  db_driver <- refresh_driver db_driver ;;
  Driver_from db_driver.

Definition get_drivers : M (list Driver) :=
  rows <- query_drivers_all ;;
  mapM Driver_from rows.

Definition get_driver (driver_id : string) : M Driver :=
  driver <- query_driver_first driver_id ;;
  match driver with
  | None => raise DriverNotFound
  | Some driver => Driver_from driver
  end.

Definition update_driver (driver_id : string) (driver_update : DriverUpdate)
  : M Driver :=
  driver <- query_driver_first driver_id ;;
  match driver with
  | None => raise DriverNotFound
  | Some driver =>
      set_driver_name driver (DriverUpdate_name driver_update) ;;
      commit ;;
      driver <- refresh_driver driver ;;
      Driver_from driver
  end.

Definition delete_driver (driver_id : string) : M Detail :=
  driver <- query_driver_first driver_id ;;
  match driver with
  | None => raise DriverNotFound
  | Some driver =>
      delete_driver_object driver ;;
      commit ;;
      ret {| detail := "Driver deleted" |}
  end.

(** *** Lap endpoints *)

Definition create_lap (random_bytes : N) (driver_id : string) (lap : LapCreate)
  : M Lap :=
  driver <- query_driver_first driver_id ;;
  match driver with
  | None => raise DriverNotFound
  | Some _ =>
      let db_lap := {| LapDB_id := new_id random_bytes;
                       LapDB_lap_time := LapCreate_lap_time lap;
                       LapDB_track := LapCreate_track lap;
                       LapDB_driver_id := driver_id |} in
      add_lap db_lap ;;
      commit ;;
      db_lap <- refresh_lap db_lap ;;
      ret (Lap_from db_lap)
  end.

Definition get_laps (driver_id : string) : M (list Lap) :=
  driver <- query_driver_first driver_id ;;
  match driver with
  | None => raise DriverNotFound
  | Some driver =>
      owned <- relationship_laps driver ;;
      ret (map Lap_from owned)
  end.

Definition get_lap (driver_id lap_id : string) : M Lap :=
  lap <- query_lap_first lap_id driver_id ;;
  match lap with
  | None => raise LapNotFound
  | Some lap => ret (Lap_from lap)
  end.

Definition update_lap (driver_id lap_id : string) (lap_update : LapUpdate)
  : M Lap :=
  lap <- query_lap_first lap_id driver_id ;;
  match lap with
  | None => raise LapNotFound
  | Some lap =>
      set_lap_fields lap (LapUpdate_lap_time lap_update)
                         (LapUpdate_track lap_update) ;;
      commit ;;
      lap <- refresh_lap lap ;;
      ret (Lap_from lap)
  end.

Definition delete_lap (driver_id lap_id : string) : M Detail :=
  lap <- query_lap_first lap_id driver_id ;;
  match lap with
  | None => raise LapNotFound
  | Some lap =>
      delete_lap_object lap ;;
      commit ;;
      ret {| detail := "Lap deleted" |}
  end.

(** ** Requests and runs *)

(** What the application can be asked: a start of the process (the code
    of [lifespan] before its [yield]) and the ten routes. *)
Inductive Request : Set :=
| Startup (r_driver r_lap1 r_lap2 : N)
| POST_drivers (random_bytes : N) (driver : DriverCreate)
| GET_drivers
| GET_driver (driver_id : string)
| PUT_driver (driver_id : string) (driver_update : DriverUpdate)
| DELETE_driver (driver_id : string)
| POST_laps (random_bytes : N) (driver_id : string) (lap : LapCreate)
| GET_laps (driver_id : string)
| GET_lap (driver_id lap_id : string)
| PUT_lap (driver_id lap_id : string) (lap_update : LapUpdate)
| DELETE_lap (driver_id lap_id : string).

Inductive Response : Set :=
| Started
| One_driver (d : Driver)
| Many_drivers (ds : list Driver)
| One_lap (l : Lap)
| Many_laps (ls : list Lap)
| Deleted (d : Detail).

Definition answer {A : Type} (f : A -> Response) (r : result A * Database)
  : result Response * Database :=
  match r with
  | (Ok a, db) => (Ok (f a), db)
  | (Raised e, db) => (Raised e, db)
  end.

(** One request against the database, each with a session of its own. *)
Definition serve (rq : Request) (db : Database) : result Response * Database :=
  match rq with
  | Startup r0 r1 r2 =>
      answer (fun _ => Started) (get_db (lifespan r0 r1 r2) db)
  | POST_drivers r driver =>
      answer One_driver (get_db (create_driver r driver) db)
  | GET_drivers => answer Many_drivers (get_db get_drivers db)
  | GET_driver i => answer One_driver (get_db (get_driver i) db)
  | PUT_driver i u => answer One_driver (get_db (update_driver i u) db)
  | DELETE_driver i => answer Deleted (get_db (delete_driver i) db)
  | POST_laps r i lap => answer One_lap (get_db (create_lap r i lap) db)
  | GET_laps i => answer Many_laps (get_db (get_laps i) db)
  | GET_lap i l => answer One_lap (get_db (get_lap i l) db)
  | PUT_lap i l u => answer One_lap (get_db (update_lap i l u) db)
  | DELETE_lap i l => answer Deleted (get_db (delete_lap i l) db)
  end.

Definition after (db : Database) (rq : Request) : Database :=
  snd (serve rq db).

(** The database after a sequence of requests, oldest first. *)
Definition run (trace : list Request) (db : Database) : Database :=
  fold_left after trace db.

Definition reachable (db : Database) : Prop :=
  exists trace, run trace empty_database = db.

(** The identifiers of the laps a request inserts, in the order of the
    INSERT statements; nothing when the request fails. *)
Definition inserted_laps (rq : Request) (db : Database) : list string :=
  match rq, fst (serve rq db) with
  | POST_laps r _ _, Ok _ => [new_id r]
  | Startup _ r1 r2, Ok _ =>
      if Nat.eqb (List.length (drivers db)) 0 then [new_id r1; new_id r2]
      else []
  | _, _ => []
  end.

(** The log of lap insertions of a run, oldest first. *)
Fixpoint insertions (trace : list Request) (db : Database) : list string :=
  match trace with
  | [] => []
  | rq :: trace' => inserted_laps rq db ++ insertions trace' (after db rq)
  end.

(** A log with each identifier kept at its latest insertion only. *)
Fixpoint latest (log : list string) : list string :=
  match log with
  | [] => []
  | i :: log' =>
      if existsb (String.eqb i) log' then latest log' else i :: latest log'
  end.

(** The lap times a request supplies. *)
Definition supplied_time (rq : Request) : option float :=
  match rq with
  | POST_laps _ _ lap => Some (LapCreate_lap_time lap)
  | PUT_lap _ _ u => Some (LapUpdate_lap_time u)
  | _ => None
  end.

Definition supplies_positive (rq : Request) : bool :=
  match supplied_time rq with
  | Some x => positive_time x
  | None => true
  end.

(** ** Integrity of a database *)

Definition driver_ids (db : Database) : list string :=
  map DriverDB_id (drivers db).

Definition lap_ids (db : Database) : list string :=
  map LapDB_id (laps db).

(** The primary keys are keys, and every lap points to a driver. *)
Record consistent (db : Database) : Prop := mkConsistent {
  drivers_pk : NoDup (driver_ids db);
  laps_pk : NoDup (lap_ids db);
  laps_fk : forall l, In l (laps db) -> In (LapDB_driver_id l) (driver_ids db)
}.

(** ** Closed forms and notions of the statements *)

(** The driver an answer shows, with the laps the relationship loads. *)
Definition Driver_view (db : Database) (row : DriverDB) : Driver :=
  {| Driver_name := DriverDB_name row;
     Driver_id := Some (DriverDB_id row);
     Driver_laps := map Lap_from (laps_of (DriverDB_id row) db) |}.

(** Unfolds the session monad in the body of an endpoint. *)
Ltac session :=
  unfold get_db, bind, ret, raise, register, commit,
    query_driver_first, query_lap_first, query_drivers_all,
    query_drivers_count, relationship_laps, refresh_driver, refresh_lap;
  cbn [store pending fst snd app flush].

(** The rows the writing endpoints add. *)
Definition new_driver (r : N) (driver : DriverCreate) : DriverDB :=
  {| DriverDB_id := new_id r; DriverDB_name := DriverCreate_name driver |}.

Definition new_lap (r : N) (driver_id : string) (lap : LapCreate) : LapDB :=
  {| LapDB_id := new_id r;
     LapDB_lap_time := LapCreate_lap_time lap;
     LapDB_track := LapCreate_track lap;
     LapDB_driver_id := driver_id |}.

(** The request bodies with the [lap_time] the column keeps. *)
Definition LapCreate_kept (t : float) (lap : LapCreate) : LapCreate :=
  {| LapCreate_lap_time := t; LapCreate_track := LapCreate_track lap |}.

Definition LapUpdate_kept (t : float) (u : LapUpdate) : LapUpdate :=
  {| LapUpdate_lap_time := t; LapUpdate_track := LapUpdate_track u |}.

(** The databases the writing endpoints commit. *)
Definition with_driver (row : DriverDB) (db : Database) : Database :=
  {| drivers := drivers db ++ [row]; laps := laps db |}.

Definition with_laps (rows : list LapDB) (db : Database) : Database :=
  {| drivers := drivers db; laps := laps db ++ rows |}.

Definition renamed (i name : string) (db : Database) : Database :=
  {| drivers := map (set_name i name) (drivers db); laps := laps db |}.

Definition retimed (l : string) (u : LapUpdate) (db : Database) : Database :=
  {| drivers := drivers db;
     laps := map (set_fields l (LapUpdate_lap_time u) (LapUpdate_track u))
                 (laps db) |}.

Definition without_laps (ls : list string) (db : Database) : Database :=
  {| drivers := drivers db;
     laps := filter (fun l => negb (existsb (String.eqb (LapDB_id l)) ls))
                    (laps db) |}.

Definition without_driver (i : string) (db : Database) : Database :=
  {| drivers := filter (fun d => negb (DriverDB_id d =? i)) (drivers db);
     laps := laps (without_laps (map LapDB_id (laps_of i db)) db) |}.

(** The example data of [lifespan]. *)
Definition seed_driver (r : N) : DriverDB :=
  {| DriverDB_id := new_id r; DriverDB_name := "Lewis Hamilton" |}.

Definition seed_laps (r_driver r_lap1 r_lap2 : N) : list LapDB :=
  [ {| LapDB_id := new_id r_lap1;
       LapDB_lap_time := lap_time_85_4;
       LapDB_track := "Silverstone";
       LapDB_driver_id := new_id r_driver |};
    {| LapDB_id := new_id r_lap2;
       LapDB_lap_time := lap_time_86_2;
       LapDB_track := "Monza";
       LapDB_driver_id := new_id r_driver |} ].

(** [k] is the identifier of a lap of driver [i]. *)
Definition owns (db : Database) (i k : string) : bool :=
  existsb (fun l => (LapDB_id l =? k) && (LapDB_driver_id l =? i)) (laps db).

(** [k in ids] *)
Definition mem (ids : list string) (k : string) : bool :=
  existsb (String.eqb k) ids.

(** A table lists its rows by insertion: its keys are the log, each key at
    its latest insertion, without the keys that are gone. *)
Definition in_log_order (ids log : list string) : Prop :=
  ids = filter (mem ids) (latest log).

(** A run to try the statements on: the example data, then the scenario of
    the specification (a driver, a lap of 78.1 at Spa). *)
Definition lap_time_78_1 : float := S754_finite false 5495798920275558 (-46).

Definition example_trace : list Request :=
  [ Startup 1 2 3;
    POST_drivers 4 {| DriverCreate_name := "Max Verstappen" |};
    POST_laps 5 (new_id 4) {| LapCreate_lap_time := lap_time_78_1;
                              LapCreate_track := "Spa" |} ].

Definition example_db : Database := run example_trace empty_database.

(** -1.0 as binary64. *)
Definition minus_one : float := S754_finite true 4503599627370496 (-52).

(** Every stored lap time is above zero. *)
Definition all_positive (db : Database) : Prop :=
  forall l, In l (laps db) -> positive_time (LapDB_lap_time l) = true.

(** The identifier [create_driver] answers, when it answers. *)
Definition issued_driver (rq : Request) (db : Database) : list string :=
  match rq, fst (serve rq db) with
  | POST_drivers _ _, Ok (One_driver d) =>
      match Driver_id d with Some i => [i] | None => [] end
  | _, _ => []
  end.

(** The driver identifiers issued along a run, oldest first. *)
Fixpoint issued_drivers (trace : list Request) (db : Database) : list string :=
  match trace with
  | [] => []
  | rq :: trace' => issued_driver rq db ++ issued_drivers trace' (after db rq)
  end.

(** Every stored identifier came out of [str(uuid.uuid4())]. *)
Definition minted (db : Database) : Prop :=
  (forall d, In d (drivers db) -> exists r, DriverDB_id d = new_id r) /\
  (forall l, In l (laps db) -> exists r, LapDB_id l = new_id r).

(** The exceptions a request can end with. *)
Definition may_raise (rq : Request) (e : exn) : Prop :=
  match rq with
  | Startup _ _ _ | POST_drivers _ _ => e = IntegrityError
  | GET_drivers => False
  | GET_driver _ | PUT_driver _ _ | DELETE_driver _ | GET_laps _ =>
      e = DriverNotFound
  | POST_laps _ _ _ => e = DriverNotFound \/ e = IntegrityError
  | PUT_lap _ _ _ => e = LapNotFound \/ e = IntegrityError
  | GET_lap _ _ | DELETE_lap _ _ => e = LapNotFound
  end.

(** ** Facts about the table reads *)

Section Reads.

Variable db : Database.

Lemma first_driver_some i row :
  first_driver i db = Some row ->
  In row (drivers db) /\ DriverDB_id row = i.
Proof.
  unfold first_driver. intros H. apply find_some in H.
  destruct H as [Hin Heq]. apply String.eqb_eq in Heq. auto.
Qed.

Lemma first_driver_none i :
  first_driver i db = None <-> ~ In i (driver_ids db).
Proof.
  unfold first_driver, driver_ids. split.
  - intros H Hin. apply in_map_iff in Hin. destruct Hin as [d [Hd Hin]].
    apply (find_none _ _ H) in Hin. rewrite Hd, String.eqb_refl in Hin.
    discriminate.
  - intros H. destruct (find _ _) as [d|] eqn:E; [|reflexivity].
    apply find_some in E. destruct E as [Hin Heq].
    apply String.eqb_eq in Heq. exfalso. apply H. subst i.
    now apply in_map.
Qed.

Lemma has_driver_true i : has_driver i db = true <-> In i (driver_ids db).
Proof.
  unfold has_driver, driver_ids. rewrite existsb_exists, in_map_iff.
  split.
  - intros [d [Hin Heq]]. apply String.eqb_eq in Heq. eauto.
  - intros [d [Heq Hin]]. exists d. split; [assumption|].
    now apply String.eqb_eq.
Qed.

Lemma has_driver_false i : has_driver i db = false <-> ~ In i (driver_ids db).
Proof.
  rewrite <- has_driver_true. destruct (has_driver i db); split; congruence.
Qed.

Lemma has_lap_true i : has_lap i db = true <-> In i (lap_ids db).
Proof.
  unfold has_lap, lap_ids. rewrite existsb_exists, in_map_iff.
  split.
  - intros [l [Hin Heq]]. apply String.eqb_eq in Heq. eauto.
  - intros [l [Heq Hin]]. exists l. split; [assumption|].
    now apply String.eqb_eq.
Qed.

Lemma has_lap_false i : has_lap i db = false <-> ~ In i (lap_ids db).
Proof.
  rewrite <- has_lap_true. destruct (has_lap i db); split; congruence.
Qed.

Lemma first_lap_some l d row :
  first_lap l d db = Some row ->
  In row (laps db) /\ LapDB_id row = l /\ LapDB_driver_id row = d.
Proof.
  unfold first_lap. intros H. apply find_some in H.
  destruct H as [Hin Heq]. apply andb_true_iff in Heq.
  destruct Heq as [H1 H2].
  apply String.eqb_eq in H1. apply String.eqb_eq in H2. auto.
Qed.

Lemma first_lap_none l d :
  first_lap l d db = None <->
  (forall row, In row (laps db) -> LapDB_id row = l ->
               LapDB_driver_id row <> d).
Proof.
  unfold first_lap. split.
  - intros H row Hin Hl Hd. apply (find_none _ _ H) in Hin.
    rewrite Hl, Hd, !String.eqb_refl in Hin. discriminate.
  - intros H. destruct (find _ _) as [row|] eqn:E; [|reflexivity].
    apply find_some in E. destruct E as [Hin Heq].
    apply andb_true_iff in Heq. destruct Heq as [H1 H2].
    apply String.eqb_eq in H1. apply String.eqb_eq in H2.
    exfalso. exact (H row Hin H1 H2).
Qed.

Lemma lap_by_id_some l row :
  lap_by_id l db = Some row -> In row (laps db) /\ LapDB_id row = l.
Proof.
  unfold lap_by_id. intros H. apply find_some in H.
  destruct H as [Hin Heq]. apply String.eqb_eq in Heq. auto.
Qed.

Lemma lap_by_id_none l : lap_by_id l db = None <-> ~ In l (lap_ids db).
Proof.
  unfold lap_by_id, lap_ids. split.
  - intros H Hin. apply in_map_iff in Hin. destruct Hin as [x [Hx Hin]].
    apply (find_none _ _ H) in Hin. rewrite Hx, String.eqb_refl in Hin.
    discriminate.
  - intros H. destruct (find _ _) as [x|] eqn:E; [|reflexivity].
    apply find_some in E. destruct E as [Hin Heq].
    apply String.eqb_eq in Heq. exfalso. apply H. subst l.
    now apply in_map.
Qed.

Lemma in_laps_of d row :
  In row (laps_of d db) <-> In row (laps db) /\ LapDB_driver_id row = d.
Proof.
  unfold laps_of. rewrite filter_In, String.eqb_eq. tauto.
Qed.

End Reads.

(** ** What each endpoint computes *)

Lemma Driver_from_eq row s :
  Driver_from row s = (Ok (Driver_view (store s) row), s).
Proof. reflexivity. Qed.

Lemma mapM_Driver_from rows s :
  mapM Driver_from rows s = (Ok (map (Driver_view (store s)) rows), s).
Proof.
  induction rows as [|row rows IH]; [reflexivity|].
  cbn [mapM map]. unfold bind at 1. rewrite Driver_from_eq.
  unfold bind at 1. rewrite IH. reflexivity.
Qed.

Lemma get_drivers_eq db :
  get_db get_drivers db = (Ok (map (Driver_view db) (drivers db)), db).
Proof.
  unfold get_drivers, get_db, bind, query_drivers_all.
  rewrite mapM_Driver_from. reflexivity.
Qed.

Lemma get_driver_eq i db :
  get_db (get_driver i) db =
  (match first_driver i db with
   | Some row => Ok (Driver_view db row)
   | None => Raised DriverNotFound
   end, db).
Proof.
  unfold get_driver. session. destruct (first_driver i db); reflexivity.
Qed.

Lemma get_laps_eq i db :
  get_db (get_laps i) db =
  (match first_driver i db with
   | Some _ => Ok (map Lap_from (laps_of i db))
   | None => Raised DriverNotFound
   end, db).
Proof.
  unfold get_laps. session.
  destruct (first_driver i db) as [row|] eqn:E; [|reflexivity].
  apply first_driver_some in E. destruct E as [_ ->]. reflexivity.
Qed.

Lemma get_lap_eq i l db :
  get_db (get_lap i l) db =
  (match first_lap l i db with
   | Some row => Ok (Lap_from row)
   | None => Raised LapNotFound
   end, db).
Proof.
  unfold get_lap. session. destruct (first_lap l i db); reflexivity.
Qed.

Lemma flush_app cs1 cs2 db :
  flush (cs1 ++ cs2) db =
  match flush cs1 db with
  | Some db' => flush cs2 db'
  | None => None
  end.
Proof.
  revert db. induction cs1 as [|c cs1 IH]; intros db; cbn [app flush].
  - reflexivity.
  - destruct (execute c db); [apply IH | reflexivity].
Qed.

Lemma filter_twice {A : Type} (first second : A -> bool) (rows : list A) :
  filter second (filter first rows)
  = filter (fun a => first a && second a) rows.
Proof.
  induction rows as [|a rows IH]; [reflexivity|]. cbn [filter].
  destruct (first a); cbn [filter andb]; [destruct (second a)|];
    now rewrite IH.
Qed.

Lemma flush_delete_laps ls db :
  flush (map DELETE_FROM_laps ls) db = Some (without_laps ls db).
Proof.
  revert db. induction ls as [|i ls IH]; intros db; cbn [map flush execute].
  - unfold without_laps. cbn [existsb negb]. f_equal.
    destruct db as [ds lps]. cbn [drivers laps]. f_equal.
    induction lps as [|x lps IHl]; [reflexivity|]. cbn [filter].
    now rewrite <- IHl.
  - rewrite IH. unfold without_laps. cbn [drivers laps existsb]. do 2 f_equal.
    rewrite filter_twice. apply filter_ext. intros l.
    now rewrite negb_orb.
Qed.

Lemma find_snoc {A : Type} (f : A -> bool) (l : list A) (x : A) :
  find f (l ++ [x]) =
  match find f l with
  | Some y => Some y
  | None => if f x then Some x else None
  end.
Proof.
  induction l as [|y l IH]; cbn [app find]; [reflexivity|].
  destruct (f y); [reflexivity | exact IH].
Qed.

Lemma execute_delete_lap l db :
  execute (DELETE_FROM_laps l) db = Some (without_laps [l] db).
Proof. exact (flush_delete_laps [l] db). Qed.

Lemma first_driver_new row db :
  has_driver (DriverDB_id row) db = false ->
  first_driver (DriverDB_id row) (with_driver row db) = Some row.
Proof.
  intros H. unfold first_driver, with_driver. cbn [drivers].
  rewrite find_snoc.
  apply has_driver_false, first_driver_none in H.
  unfold first_driver in H. rewrite H.
  now rewrite String.eqb_refl.
Qed.

Lemma lap_by_id_new row db :
  has_lap (LapDB_id row) db = false ->
  lap_by_id (LapDB_id row) (with_laps [row] db) = Some row.
Proof.
  intros H. unfold lap_by_id, with_laps. cbn [laps].
  rewrite find_snoc.
  apply has_lap_false, lap_by_id_none in H.
  unfold lap_by_id in H. rewrite H.
  now rewrite String.eqb_refl.
Qed.

Lemma set_name_id i name d : DriverDB_id (set_name i name d) = DriverDB_id d.
Proof. unfold set_name. now destruct (DriverDB_id d =? i). Qed.

Lemma set_fields_id i t k l :
  LapDB_id (set_fields i t k l) = LapDB_id l.
Proof. unfold set_fields. now destruct (LapDB_id l =? i). Qed.

Lemma set_fields_owner i t k l :
  LapDB_driver_id (set_fields i t k l) = LapDB_driver_id l.
Proof. unfold set_fields. now destruct (LapDB_id l =? i). Qed.

Lemma first_driver_renamed i name row db :
  first_driver i db = Some row ->
  first_driver i (renamed i name db)
  = Some {| DriverDB_id := i; DriverDB_name := name |}.
Proof.
  unfold first_driver, renamed. cbn [drivers].
  induction (drivers db) as [|d ds IH]; cbn [find map]; [discriminate|].
  rewrite set_name_id. destruct (DriverDB_id d =? i) eqn:E; [|exact IH].
  intros _. unfold set_name. rewrite E.
  apply String.eqb_eq in E. now rewrite E.
Qed.

Lemma lap_by_id_retimed l u row db :
  lap_by_id l db = Some row ->
  lap_by_id l (retimed l u db)
  = Some {| LapDB_id := l;
            LapDB_lap_time := LapUpdate_lap_time u;
            LapDB_track := LapUpdate_track u;
            LapDB_driver_id := LapDB_driver_id row |}.
Proof.
  unfold lap_by_id, retimed. cbn [laps].
  induction (laps db) as [|x xs IH]; cbn [find map]; [discriminate|].
  rewrite set_fields_id. destruct (LapDB_id x =? l) eqn:E; [|exact IH].
  intros [= <-]. unfold set_fields. rewrite E.
  apply String.eqb_eq in E. now rewrite E.
Qed.

Lemma first_lap_by_id l i row db :
  first_lap l i db = Some row -> exists row', lap_by_id l db = Some row'.
Proof.
  intros H. apply first_lap_some in H. destruct H as [Hin [Hl _]].
  destruct (lap_by_id l db) as [row'|] eqn:E; [eauto|].
  apply lap_by_id_none in E. exfalso. apply E. subst l.
  unfold lap_ids. now apply in_map.
Qed.

Lemma create_driver_eq r driver db :
  get_db (create_driver r driver) db =
  if has_driver (new_id r) db then (Raised IntegrityError, db)
  else
    let db' := with_driver (new_driver r driver) db in
    (Ok (Driver_view db' (new_driver r driver)), db').
Proof.
  unfold create_driver, add_driver. session. cbn [map execute DriverDB_id].
  fold (new_driver r driver).
  destruct (has_driver (new_id r) db) eqn:E; [reflexivity|].
  cbn [flush store]. fold (with_driver (new_driver r driver) db).
  change (new_id r) with (DriverDB_id (new_driver r driver)).
  rewrite first_driver_new by assumption. reflexivity.
Qed.

Lemma update_driver_eq i u db :
  get_db (update_driver i u) db =
  match first_driver i db with
  | None => (Raised DriverNotFound, db)
  | Some _ =>
      let db' := renamed i (DriverUpdate_name u) db in
      (Ok (Driver_view db' {| DriverDB_id := i;
                              DriverDB_name := DriverUpdate_name u |}), db')
  end.
Proof.
  unfold update_driver, set_driver_name. session.
  destruct (first_driver i db) as [row|] eqn:E; [|reflexivity].
  session. cbn [execute flush]. cbn [store].
  destruct (first_driver_some _ _ _ E) as [_ Hid]. rewrite Hid.
  fold (renamed i (DriverUpdate_name u) db).
  rewrite (first_driver_renamed _ _ _ _ E). reflexivity.
Qed.

Lemma delete_driver_eq i db :
  get_db (delete_driver i) db =
  match first_driver i db with
  | None => (Raised DriverNotFound, db)
  | Some _ => (Ok {| detail := "Driver deleted" |}, without_driver i db)
  end.
Proof.
  unfold delete_driver, delete_driver_object. session.
  destruct (first_driver i db) as [row|] eqn:E; [|reflexivity].
  session. destruct (first_driver_some _ _ _ E) as [_ Hid]. rewrite Hid.
  rewrite <- (map_map LapDB_id DELETE_FROM_laps).
  rewrite flush_app, flush_delete_laps. reflexivity.
Qed.

Lemma create_lap_eq r i lap db :
  get_db (create_lap r i lap) db =
  match first_driver i db with
  | None => (Raised DriverNotFound, db)
  | Some _ =>
      if has_lap (new_id r) db then (Raised IntegrityError, db)
      else
        match stored_real (LapCreate_lap_time lap) with
        | None => (Raised IntegrityError, db)
        | Some t =>
            (Ok (Lap_from (new_lap r i (LapCreate_kept t lap))),
             with_laps [new_lap r i (LapCreate_kept t lap)] db)
        end
  end.
Proof.
  unfold create_lap, add_lap. session.
  destruct (first_driver i db) as [row|] eqn:E; [|reflexivity].
  session.
  cbn [execute LapDB_id LapDB_lap_time LapDB_track LapDB_driver_id].
  destruct (has_lap (new_id r) db) eqn:H; [reflexivity|].
  destruct (stored_real (LapCreate_lap_time lap)) as [t|]; [|reflexivity].
  cbn [flush store].
  change (lap_by_id (new_id r) ?d)
    with (lap_by_id (LapDB_id (new_lap r i (LapCreate_kept t lap)))
            (with_laps [new_lap r i (LapCreate_kept t lap)] db)).
  rewrite lap_by_id_new by assumption. reflexivity.
Qed.

Lemma first_lap_has_lap l i row db :
  first_lap l i db = Some row -> has_lap l db = true.
Proof.
  intros H. apply first_lap_some in H. destruct H as [Hin [Hid _]].
  apply has_lap_true. subst l. unfold lap_ids. now apply in_map.
Qed.

Lemma update_lap_eq i l u db :
  get_db (update_lap i l u) db =
  match first_lap l i db with
  | None => (Raised LapNotFound, db)
  | Some _ =>
      match stored_real (LapUpdate_lap_time u) with
      | None => (Raised IntegrityError, db)
      | Some t =>
          (Ok {| Lap_id := Some l;
                 Lap_lap_time := t;
                 Lap_track := LapUpdate_track u |},
           retimed l (LapUpdate_kept t u) db)
      end
  end.
Proof.
  unfold update_lap, set_lap_fields. session.
  destruct (first_lap l i db) as [row|] eqn:E; [|reflexivity].
  session. cbn [execute].
  destruct (first_lap_some _ _ _ _ E) as [_ [Hid _]]. rewrite Hid.
  destruct (stored_real (LapUpdate_lap_time u)) as [t|].
  - cbn [flush store].
    change {| drivers := drivers db;
              laps := map (set_fields l t (LapUpdate_track u)) (laps db) |}
      with (retimed l (LapUpdate_kept t u) db).
    destruct (first_lap_by_id _ _ _ _ E) as [row' E'].
    rewrite (lap_by_id_retimed _ (LapUpdate_kept t u) _ _ E'). reflexivity.
  - rewrite (first_lap_has_lap _ _ _ _ E). reflexivity.
Qed.

Lemma delete_lap_eq i l db :
  get_db (delete_lap i l) db =
  match first_lap l i db with
  | None => (Raised LapNotFound, db)
  | Some _ => (Ok {| detail := "Lap deleted" |}, without_laps [l] db)
  end.
Proof.
  unfold delete_lap, delete_lap_object. session.
  destruct (first_lap l i db) as [row|] eqn:E; [|reflexivity].
  session. destruct (first_lap_some _ _ _ _ E) as [_ [Hid _]]. rewrite Hid.
  rewrite execute_delete_lap. reflexivity.
Qed.

Lemma lifespan_eq r0 r1 r2 db :
  get_db (lifespan r0 r1 r2) db =
  if Nat.eqb (List.length (drivers db)) 0 then
    if has_lap (new_id r1) db || has_lap (new_id r2) db
       || (new_id r1 =? new_id r2)
    then (Raised IntegrityError, db)
    else (Ok tt, with_laps (seed_laps r0 r1 r2)
                           (with_driver (seed_driver r0) db))
  else (Ok tt, db).
Proof.
  unfold lifespan, add_driver. session.
  destruct (Nat.eqb (List.length (drivers db)) 0) eqn:E; [|reflexivity].
  session.
  cbn [map app flush execute DriverDB_id LapDB_id LapDB_lap_time LapDB_track
       LapDB_driver_id stored_real lap_time_85_4 lap_time_86_2].
  apply Nat.eqb_eq, length_zero_iff_nil in E.
  unfold has_driver. rewrite E. cbn [existsb app].
  unfold has_lap at 1. cbn [laps].
  fold (has_lap (new_id r1) db).
  destruct (has_lap (new_id r1) db); [reflexivity|].
  unfold has_lap at 1. cbn [laps drivers]. rewrite existsb_app.
  fold (has_lap (new_id r2) db). cbn [existsb LapDB_id orb].
  rewrite orb_false_r.
  destruct (has_lap (new_id r2) db); cbn [orb]; [reflexivity|].
  destruct (new_id r1 =? new_id r2); cbn [store]; [reflexivity|].
  unfold with_laps, with_driver, seed_laps, seed_driver. cbn [drivers laps].
  rewrite E, <- app_assoc. reflexivity.
Qed.

(** ** Integrity is kept by every request *)

Lemma NoDup_snoc {A : Type} (l : list A) (x : A) :
  NoDup l -> ~ In x l -> NoDup (l ++ [x]).
Proof.
  intros Hl Hx. apply NoDup_app; [assumption | repeat constructor; intros [] |].
  intros y Hy [<- | []]. exact (Hx Hy).
Qed.

Section Keys.

Context {A : Type} (key : A -> string).

(** Rows selected from a table with unique keys have unique keys. *)
Lemma unique_keys_filter (q : A -> bool) (rows : list A) :
  NoDup (map key rows) -> NoDup (map key (filter q rows)).
Proof.
  induction rows as [|a rows IH]; cbn [map filter]; [auto|].
  intros H. inversion H as [|? ? Ha Hrows]; subst.
  destruct (q a); cbn [map]; [|auto].
  constructor; [|auto]. intros Hin. apply Ha.
  apply in_map_iff in Hin. destruct Hin as [b [Hb Hin]].
  apply filter_In in Hin. rewrite <- Hb. apply in_map. tauto.
Qed.

(** In a table with unique keys, a key names one row. *)
Lemma unique_keys_row (rows : list A) (a b : A) :
  NoDup (map key rows) -> In a rows -> In b rows -> key a = key b -> a = b.
Proof.
  induction rows as [|c rows IH]; cbn [map]; [intros _ []|].
  intros H. inversion H as [|? ? Hc Hrows]; subst.
  intros [-> | Ha] [-> | Hb] E; auto.
  - exfalso. apply Hc. rewrite E. now apply in_map.
  - exfalso. apply Hc. rewrite <- E. now apply in_map.
Qed.

End Keys.

Lemma map_id_set_name i name ds :
  map DriverDB_id (map (set_name i name) ds) = map DriverDB_id ds.
Proof.
  rewrite map_map. apply map_ext. intros d. apply set_name_id.
Qed.

Lemma map_id_set_fields i t k ls :
  map LapDB_id (map (set_fields i t k) ls) = map LapDB_id ls.
Proof.
  rewrite map_map. apply map_ext. intros l. apply set_fields_id.
Qed.

Section Integrity.

Variable db : Database.
Hypothesis ok : consistent db.

Lemma consistent_with_driver row :
  ~ In (DriverDB_id row) (driver_ids db) -> consistent (with_driver row db).
Proof.
  intros Hnew. destruct ok as [Hd Hl Hfk].
  constructor; unfold driver_ids, lap_ids, with_driver; cbn [drivers laps].
  - rewrite map_app. now apply NoDup_snoc.
  - assumption.
  - intros l Hin. rewrite map_app. apply in_or_app. left. now apply Hfk.
Qed.

Lemma consistent_with_lap row :
  ~ In (LapDB_id row) (lap_ids db) ->
  In (LapDB_driver_id row) (driver_ids db) ->
  consistent (with_laps [row] db).
Proof.
  intros Hnew Howner. destruct ok as [Hd Hl Hfk].
  constructor; unfold driver_ids, lap_ids, with_laps; cbn [drivers laps].
  - assumption.
  - rewrite map_app. now apply NoDup_snoc.
  - intros l Hin. apply in_app_or in Hin.
    destruct Hin as [Hin | [<- | []]]; [now apply Hfk | assumption].
Qed.

Lemma consistent_renamed i name : consistent (renamed i name db).
Proof.
  destruct ok as [Hd Hl Hfk].
  constructor; unfold driver_ids, lap_ids, renamed; cbn [drivers laps];
    rewrite ?map_id_set_name; assumption.
Qed.

Lemma consistent_retimed l u : consistent (retimed l u db).
Proof.
  destruct ok as [Hd Hl Hfk].
  constructor; unfold driver_ids, lap_ids, retimed; cbn [drivers laps];
    rewrite ?map_id_set_fields; try assumption.
  intros x Hin. apply in_map_iff in Hin. destruct Hin as [y [<- Hin]].
  rewrite set_fields_owner. now apply Hfk.
Qed.

Lemma consistent_without_laps ls : consistent (without_laps ls db).
Proof.
  destruct ok as [Hd Hl Hfk].
  constructor; unfold driver_ids, lap_ids, without_laps; cbn [drivers laps].
  - assumption.
  - now apply unique_keys_filter.
  - intros l Hin. apply filter_In in Hin. now apply Hfk.
Qed.

(** With keys that are keys, the cascade removes the laps of the driver
    and no other. *)
Lemma laps_without_driver i :
  laps (without_driver i db)
  = filter (fun l => negb (LapDB_driver_id l =? i)) (laps db).
Proof.
  unfold without_driver, without_laps. cbn [laps].
  apply filter_ext_in. intros l Hin. f_equal.
  destruct (LapDB_driver_id l =? i) eqn:E.
  - apply existsb_exists. exists (LapDB_id l).
    split; [|apply String.eqb_refl].
    apply in_map, in_laps_of. apply String.eqb_eq in E. auto.
  - destruct (existsb _ _) eqn:X; [|reflexivity].
    apply existsb_exists in X. destruct X as [k [Hk Heq]].
    apply String.eqb_eq in Heq. apply in_map_iff in Hk.
    destruct Hk as [l' [Hid Hl']]. apply in_laps_of in Hl'.
    destruct Hl' as [Hin' Hown].
    assert (l' = l).
    { apply (unique_keys_row LapDB_id (laps db)); try assumption.
      - exact (laps_pk _ ok).
      - congruence. }
    subst l'. rewrite Hown, String.eqb_refl in E. discriminate.
Qed.

Lemma consistent_without_driver i : consistent (without_driver i db).
Proof.
  destruct ok as [Hd Hl Hfk].
  constructor; unfold driver_ids, lap_ids.
  - unfold without_driver. cbn [drivers]. now apply unique_keys_filter.
  - rewrite laps_without_driver. now apply unique_keys_filter.
  - rewrite laps_without_driver. intros l Hin.
    apply filter_In in Hin. destruct Hin as [Hin Hne].
    apply negb_true_iff, String.eqb_neq in Hne.
    specialize (Hfk l Hin). unfold driver_ids in Hfk.
    apply in_map_iff in Hfk. destruct Hfk as [d [Hid Hdin]].
    unfold without_driver. cbn [drivers]. apply in_map_iff.
    exists d. split; [assumption|]. apply filter_In. split; [assumption|].
    apply negb_true_iff, String.eqb_neq. congruence.
Qed.

End Integrity.

Lemma consistent_empty : consistent empty_database.
Proof. constructor; cbn; [constructor | constructor | intros l []]. Qed.

Lemma with_laps_two l1 l2 db :
  with_laps [l1; l2] db = with_laps [l2] (with_laps [l1] db).
Proof.
  unfold with_laps. cbn [drivers laps]. now rewrite <- app_assoc.
Qed.

Lemma consistent_seeded r0 r1 r2 db :
  consistent db ->
  drivers db = [] ->
  has_lap (new_id r1) db = false ->
  has_lap (new_id r2) db = false ->
  (new_id r1 =? new_id r2) = false ->
  consistent (with_laps (seed_laps r0 r1 r2) (with_driver (seed_driver r0) db)).
Proof.
  intros ok Hempty H1 H2 H12. unfold seed_laps. rewrite with_laps_two.
  assert (Hseed : In (new_id r0)
                     (driver_ids (with_driver (seed_driver r0) db))).
  { unfold driver_ids, with_driver. cbn [drivers]. rewrite Hempty. now left. }
  apply consistent_with_lap; cbn [LapDB_id LapDB_driver_id].
  - apply consistent_with_lap; cbn [LapDB_id LapDB_driver_id].
    + apply consistent_with_driver; [assumption|].
      unfold driver_ids. rewrite Hempty. intros [].
    + now apply has_lap_false in H1.
    + assumption.
  - unfold lap_ids, with_laps, with_driver. cbn [laps].
    rewrite map_app. cbn [map LapDB_id]. intros Hin.
    apply in_app_or in Hin. destruct Hin as [Hin | [Heq | []]].
    + apply has_lap_false in H2. exact (H2 Hin).
    + apply String.eqb_neq in H12. congruence.
  - assumption.
Qed.

Theorem after_consistent db rq : consistent db -> consistent (after db rq).
Proof.
  intros ok. unfold after. destruct rq; cbn [serve].
  - rewrite lifespan_eq.
    destruct (Nat.eqb _ _) eqn:E; [|exact ok].
    destruct (_ || _ || _) eqn:X; [exact ok|]. cbn [answer snd].
    apply orb_false_iff in X. destruct X as [X H12].
    apply orb_false_iff in X. destruct X as [H1 H2].
    apply Nat.eqb_eq, length_zero_iff_nil in E.
    now apply consistent_seeded.
  - rewrite create_driver_eq.
    destruct (has_driver _ _) eqn:E; [exact ok|]. cbn [answer snd].
    apply consistent_with_driver; [assumption|].
    now apply has_driver_false in E.
  - rewrite get_drivers_eq. exact ok.
  - rewrite get_driver_eq. destruct (first_driver _ _); exact ok.
  - rewrite update_driver_eq.
    destruct (first_driver _ _); [|exact ok]. cbn [answer snd].
    now apply consistent_renamed.
  - rewrite delete_driver_eq.
    destruct (first_driver _ _); [|exact ok]. cbn [answer snd].
    now apply consistent_without_driver.
  - rewrite create_lap_eq.
    destruct (first_driver _ _) as [row|] eqn:D; [|exact ok].
    destruct (has_lap _ _) eqn:E; [exact ok|].
    destruct (stored_real _) as [t|]; [|exact ok]. cbn [answer snd].
    apply consistent_with_lap; [assumption | | ];
      cbn [new_lap LapDB_id LapDB_driver_id].
    + now apply has_lap_false in E.
    + apply first_driver_some in D. destruct D as [Hin <-].
      unfold driver_ids. now apply in_map.
  - rewrite get_laps_eq. destruct (first_driver _ _); exact ok.
  - rewrite get_lap_eq. destruct (first_lap _ _ _); exact ok.
  - rewrite update_lap_eq.
    destruct (first_lap _ _ _); [|exact ok].
    destruct (stored_real _) as [t|]; [|exact ok]. cbn [answer snd].
    now apply consistent_retimed.
  - rewrite delete_lap_eq.
    destruct (first_lap _ _ _); [|exact ok]. cbn [answer snd].
    now apply consistent_without_laps.
Qed.

Lemma run_consistent trace db : consistent db -> consistent (run trace db).
Proof.
  revert db. induction trace as [|rq trace IH]; intros db ok; [exact ok|].
  cbn [run fold_left]. apply IH. now apply after_consistent.
Qed.

Theorem reachable_consistent db : reachable db -> consistent db.
Proof.
  intros [trace <-]. apply run_consistent, consistent_empty.
Qed.

(** ** The order of the laps table *)

Section LogOrder.

Lemma mem_app ids1 ids2 k : mem (ids1 ++ ids2) k = mem ids1 k || mem ids2 k.
Proof. unfold mem. apply existsb_app. Qed.

Lemma mem_true ids k : mem ids k = true <-> In k ids.
Proof.
  unfold mem. rewrite existsb_exists. split.
  - intros [x [Hin Heq]]. apply String.eqb_eq in Heq. now subst.
  - intros Hin. exists k. split; [assumption | apply String.eqb_refl].
Qed.

Lemma mem_false ids k : mem ids k = false <-> ~ In k ids.
Proof. rewrite <- mem_true. destruct (mem ids k); split; congruence. Qed.

Lemma mem_filter g ids k : mem (filter g ids) k = mem ids k && g k.
Proof.
  induction ids as [|x ids IH]; [reflexivity|]. cbn [filter].
  destruct (g x) eqn:G; unfold mem in *; cbn [existsb]; rewrite IH;
    (destruct (k =? x) eqn:E; cbn [orb]; [|reflexivity]);
    apply String.eqb_eq in E; subst x; rewrite G;
    destruct (existsb _ ids); reflexivity.
Qed.

Lemma filter_all {A : Type} (f : A -> bool) (l : list A) :
  (forall x, In x l -> f x = true) -> filter f l = l.
Proof.
  induction l as [|x l IH]; intros H; [reflexivity|]. cbn [filter].
  rewrite (H x (or_introl eq_refl)). f_equal. apply IH.
  intros y Hy. apply H. now right.
Qed.

Lemma latest_snoc log k :
  latest (log ++ [k]) = filter (fun x => negb (x =? k)) (latest log) ++ [k].
Proof.
  induction log as [|x log IH]; [reflexivity|]. cbn [app latest].
  fold (mem (log ++ [k]) x). fold (mem log x).
  rewrite mem_app. unfold mem at 2. cbn [existsb]. rewrite orb_false_r.
  destruct (x =? k) eqn:E.
  - rewrite orb_true_r, IH.
    destruct (mem log x); [reflexivity|]. cbn [filter].
    now rewrite E.
  - rewrite orb_false_r. destruct (mem log x); [exact IH|].
    cbn [filter]. rewrite E. cbn [negb app]. now rewrite IH.
Qed.

Lemma in_log_order_insert ids log k :
  in_log_order ids log -> ~ In k ids ->
  in_log_order (ids ++ [k]) (log ++ [k]).
Proof.
  unfold in_log_order. intros H Hk.
  rewrite latest_snoc, filter_app. cbn [filter].
  rewrite mem_app. replace (mem [k] k) with true
    by (unfold mem; cbn [existsb]; now rewrite String.eqb_refl).
  rewrite orb_true_r. f_equal.
  rewrite filter_twice.
  rewrite (filter_ext _ (fun x => mem ids x && negb (x =? k))).
  - rewrite <- filter_twice, <- H. symmetry. apply filter_all.
    intros x Hx. apply negb_true_iff, String.eqb_neq. congruence.
  - intros x. rewrite mem_app. unfold mem at 2. cbn [existsb].
    rewrite orb_false_r. destruct (x =? k); cbn [negb andb].
    + now rewrite andb_false_r.
    + now rewrite orb_false_r, andb_true_r.
Qed.

Lemma in_log_order_delete g ids log :
  in_log_order ids log -> in_log_order (filter g ids) log.
Proof.
  unfold in_log_order. intros H.
  rewrite (filter_ext (mem (filter g ids)) (fun k => mem ids k && g k))
    by (intros k; apply mem_filter).
  now rewrite <- filter_twice, <- H.
Qed.

Lemma in_log_order_select g ids log :
  in_log_order ids log ->
  (forall k, g k = true -> In k ids) ->
  filter g ids = filter g (latest log).
Proof.
  unfold in_log_order. intros H Hg. rewrite H at 1.
  rewrite filter_twice. apply filter_ext. intros k.
  destruct (g k) eqn:G; [|apply andb_false_r].
  rewrite andb_true_r. now apply mem_true, Hg.
Qed.

Lemma map_filter_key {A : Type} (key : A -> string) (q : A -> bool)
  (g : string -> bool) (rows : list A) :
  (forall x, In x rows -> q x = g (key x)) ->
  map key (filter q rows) = filter g (map key rows).
Proof.
  induction rows as [|x rows IH]; intros H; [reflexivity|].
  cbn [filter map]. rewrite <- (H x (or_introl eq_refl)).
  destruct (q x); cbn [map]; rewrite IH; auto.
  - intros y Hy. apply H. now right.
  - intros y Hy. apply H. now right.
Qed.

End LogOrder.

Lemma run_snoc trace rq db : run (trace ++ [rq]) db = after (run trace db) rq.
Proof. unfold run. now rewrite fold_left_app. Qed.

Lemma insertions_snoc trace rq db :
  insertions (trace ++ [rq]) db
  = insertions trace db ++ inserted_laps rq (run trace db).
Proof.
  revert db. induction trace as [|x trace IH]; intros db; cbn [app insertions].
  - now rewrite app_nil_r.
  - rewrite IH, app_assoc. reflexivity.
Qed.

Lemma lap_ids_without_laps ls db :
  lap_ids (without_laps ls db)
  = filter (fun k => negb (mem ls k)) (lap_ids db).
Proof.
  unfold lap_ids, without_laps. cbn [laps].
  apply map_filter_key. reflexivity.
Qed.

Lemma lap_ids_without_driver i db :
  lap_ids (without_driver i db)
  = filter (fun k => negb (mem (map LapDB_id (laps_of i db)) k)) (lap_ids db).
Proof. exact (lap_ids_without_laps _ db). Qed.

(** Every request keeps the laps table in the order of the log. *)
Lemma after_in_log_order db rq log :
  in_log_order (lap_ids db) log ->
  in_log_order (lap_ids (after db rq)) (log ++ inserted_laps rq db).
Proof.
  intros H. unfold after, inserted_laps. destruct rq; cbn [serve].
  - rewrite lifespan_eq.
    destruct (Nat.eqb _ _) eqn:E; [|now rewrite app_nil_r].
    destruct (_ || _ || _) eqn:X; cbn [answer fst snd];
      [now rewrite app_nil_r|].
    apply orb_false_iff in X. destruct X as [X H12].
    apply orb_false_iff in X. destruct X as [H1 H2].
    unfold lap_ids, with_laps, with_driver, seed_laps. cbn [laps].
    rewrite map_app. cbn [map LapDB_id].
    change [new_id r_lap1; new_id r_lap2]
      with ([new_id r_lap1] ++ [new_id r_lap2]).
    rewrite !app_assoc. apply in_log_order_insert.
    + apply in_log_order_insert; [assumption | now apply has_lap_false].
    + intros Hin. apply in_app_or in Hin. destruct Hin as [Hin | [Heq | []]].
      * apply has_lap_false in H2. exact (H2 Hin).
      * apply String.eqb_neq in H12. congruence.
  - rewrite create_driver_eq. rewrite app_nil_r.
    destruct (has_driver _ _); exact H.
  - rewrite get_drivers_eq, app_nil_r. exact H.
  - rewrite get_driver_eq, app_nil_r. destruct (first_driver _ _); exact H.
  - rewrite update_driver_eq, app_nil_r. destruct (first_driver _ _); exact H.
  - rewrite delete_driver_eq, app_nil_r.
    destruct (first_driver _ _); [|exact H]. cbn [answer snd].
    rewrite lap_ids_without_driver. now apply in_log_order_delete.
  - rewrite create_lap_eq.
    destruct (first_driver _ _); cbn [answer fst snd]; [|now rewrite app_nil_r].
    destruct (has_lap _ _) eqn:E; cbn [answer fst snd];
      [now rewrite app_nil_r|].
    destruct (stored_real _) as [t|]; cbn [answer fst snd];
      [|now rewrite app_nil_r].
    unfold lap_ids, with_laps. cbn [laps]. rewrite map_app.
    apply in_log_order_insert; [assumption | now apply has_lap_false].
  - rewrite get_laps_eq, app_nil_r. destruct (first_driver _ _); exact H.
  - rewrite get_lap_eq, app_nil_r. destruct (first_lap _ _ _); exact H.
  - rewrite update_lap_eq, app_nil_r.
    destruct (first_lap _ _ _); [|exact H].
    destruct (stored_real _) as [t|]; [|exact H]. cbn [answer snd].
    unfold lap_ids, retimed. cbn [laps]. rewrite map_id_set_fields. exact H.
  - rewrite delete_lap_eq, app_nil_r.
    destruct (first_lap _ _ _); [|exact H]. cbn [answer snd].
    rewrite lap_ids_without_laps. now apply in_log_order_delete.
Qed.

Lemma run_in_log_order trace :
  in_log_order (lap_ids (run trace empty_database))
               (insertions trace empty_database).
Proof.
  induction trace as [|rq trace IH] using rev_ind; [reflexivity|].
  rewrite run_snoc, insertions_snoc. now apply after_in_log_order.
Qed.

(** With keys that are keys, the identifiers of the laps of a driver are
    those of the table that the driver owns, in the order of the table. *)
Lemma ids_of_laps_of i db :
  consistent db ->
  map LapDB_id (laps_of i db) = filter (owns db i) (lap_ids db).
Proof.
  intros ok. unfold laps_of, lap_ids. apply map_filter_key.
  intros l Hin. unfold owns.
  destruct (LapDB_driver_id l =? i) eqn:E.
  - symmetry. apply existsb_exists. exists l. split; [assumption|].
    now rewrite String.eqb_refl, E.
  - destruct (existsb _ _) eqn:X; [|reflexivity].
    apply existsb_exists in X. destruct X as [l' [Hin' Heq]].
    apply andb_true_iff in Heq. destruct Heq as [Hid Hown].
    apply String.eqb_eq in Hid. apply String.eqb_eq in Hown.
    assert (l' = l)
      by (apply (unique_keys_row LapDB_id (laps db));
          [exact (laps_pk _ ok) | assumption | assumption | assumption]).
    subst l'. rewrite Hown, String.eqb_refl in E. discriminate.
Qed.

Lemma owns_in db i k : owns db i k = true -> In k (lap_ids db).
Proof.
  unfold owns, lap_ids. intros H. apply existsb_exists in H.
  destruct H as [l [Hin Heq]]. apply andb_true_iff in Heq.
  destruct Heq as [Hid _]. apply String.eqb_eq in Hid. subst k.
  now apply in_map.
Qed.

(** ** Identifiers are thirty-six characters *)

Lemma str_length int : String.length (UUID.str int) = 36.
Proof.
  cbv [UUID.str UUID.hex32 UUID.slice seq rev app map Nat.sub firstn skipn
       string_of_list_ascii String.length].
  reflexivity.
Qed.

Lemma new_id_not_empty r : new_id r <> "".
Proof.
  intros H. pose proof (str_length (UUID.uuid4 r)) as L.
  unfold new_id in H. rewrite H in L. discriminate L.
Qed.

(** ** Owner-scoped lap routes *)

Lemma first_lap_other_owner db X L row :
  consistent db ->
  In row (laps db) -> LapDB_id row = L -> LapDB_driver_id row <> X ->
  first_lap L X db = None.
Proof.
  intros ok Hin Hid Hown. apply first_lap_none.
  intros row' Hin' Hid' Hown'.
  assert (row' = row)
    by (apply (unique_keys_row LapDB_id (laps db));
        [exact (laps_pk _ ok) | assumption | assumption | congruence]).
  subst row'. contradiction.
Qed.

(** C1. In a reachable state, a lap [L] that exists but belongs to a driver
    other than [X] is not found under [X]: [get_lap], [update_lap] and
    [delete_lap] with [driver_id = X] and [lap_id = L] all raise the 404
    "Lap not found" (they never return the lap), and the database is left
    as it was. *)
Theorem lap_of_another_driver_not_found db X L row u :
  reachable db ->
  In row (laps db) -> LapDB_id row = L -> LapDB_driver_id row <> X ->
  get_db (get_lap X L) db = (Raised LapNotFound, db) /\
  get_db (update_lap X L u) db = (Raised LapNotFound, db) /\
  get_db (delete_lap X L) db = (Raised LapNotFound, db).
Proof.
  intros Hreach Hin Hid Hown.
  assert (E : first_lap L X db = None)
    by (eapply first_lap_other_owner; eauto using reachable_consistent).
  rewrite get_lap_eq, update_lap_eq, delete_lap_eq, E. auto.
Qed.

Lemma lap_of_another_driver_not_found_witness :
  get_db (get_lap (new_id 4) (new_id 2)) example_db
    = (Raised LapNotFound, example_db) /\
  get_db (update_lap (new_id 4) (new_id 2)
            {| LapUpdate_lap_time := lap_time_78_1;
               LapUpdate_track := "Spa" |}) example_db
    = (Raised LapNotFound, example_db) /\
  get_db (delete_lap (new_id 4) (new_id 2)) example_db
    = (Raised LapNotFound, example_db).
Proof.
  apply (lap_of_another_driver_not_found example_db (new_id 4) (new_id 2)
           {| LapDB_id := new_id 2;
              LapDB_lap_time := lap_time_85_4;
              LapDB_track := "Silverstone";
              LapDB_driver_id := new_id 1 |}).
  - exists example_trace. reflexivity.
  - vm_compute. left. reflexivity.
  - reflexivity.
  - vm_compute. intros H. discriminate H.
Defined.

(** ** Cascading deletion *)

Lemma driver_gone i db : ~ In i (driver_ids (without_driver i db)).
Proof.
  unfold driver_ids, without_driver. cbn [drivers]. intros H.
  apply in_map_iff in H. destruct H as [d [Hid Hin]].
  apply filter_In in Hin. destruct Hin as [_ Hne].
  apply negb_true_iff, String.eqb_neq in Hne. contradiction.
Qed.

(** C2. In a reachable state that holds a driver [D], [delete_driver D]
    answers "Driver deleted" and commits, in its one transaction, the
    database without [D] and without the laps of [D]: the other drivers and
    laps are as before and as many laps are gone as [D] had.  The deletions
    of the cascade are only registered in the session, whose store is still
    the database before, until that one commit.  Afterwards [get_lap] on
    the identifier of any of those laps raises "Lap not found" whichever
    driver is claimed, and [get_driver D] and [get_laps D] raise "Driver
    not found". *)
Theorem delete_driver_cascades db D :
  reachable db ->
  In D (driver_ids db) ->
  exists db',
    get_db (delete_driver D) db = (Ok {| detail := "Driver deleted" |}, db') /\
    drivers db' = filter (fun d => negb (DriverDB_id d =? D)) (drivers db) /\
    laps db' = filter (fun l => negb (LapDB_driver_id l =? D)) (laps db) /\
    List.length (laps db') + List.length (laps_of D db)
      = List.length (laps db) /\
    (forall row,
       store (snd (delete_driver_object row {| store := db; pending := [] |}))
       = db) /\
    (forall l X, In l (laps db) -> LapDB_driver_id l = D ->
       get_db (get_lap X (LapDB_id l)) db' = (Raised LapNotFound, db')) /\
    get_db (get_driver D) db' = (Raised DriverNotFound, db') /\
    get_db (get_laps D) db' = (Raised DriverNotFound, db').
Proof.
  intros Hreach HD. apply reachable_consistent in Hreach.
  exists (without_driver D db).
  assert (Hlaps := laps_without_driver db Hreach D).
  assert (Hgone : first_driver D (without_driver D db) = None)
    by apply first_driver_none, driver_gone.
  repeat split.
  - rewrite delete_driver_eq.
    destruct (first_driver D db) eqn:E; [reflexivity|].
    apply first_driver_none in E. contradiction.
  - exact Hlaps.
  - rewrite Hlaps. unfold laps_of.
    rewrite Nat.add_comm.
    exact (filter_length (fun l => LapDB_driver_id l =? D) (laps db)).
  - intros l X Hin Hown. rewrite get_lap_eq.
    replace (first_lap (LapDB_id l) X (without_driver D db)) with (@None LapDB);
      [reflexivity|].
    symmetry. apply first_lap_none. intros row Hrow Hid _.
    rewrite Hlaps in Hrow. apply filter_In in Hrow.
    destruct Hrow as [Hrow Hne].
    apply negb_true_iff, String.eqb_neq in Hne.
    assert (row = l)
      by (apply (unique_keys_row LapDB_id (laps db));
          [exact (laps_pk _ Hreach) | assumption | assumption | assumption]).
    subst row. contradiction.
  - rewrite get_driver_eq, Hgone. reflexivity.
  - rewrite get_laps_eq, Hgone. reflexivity.
Qed.

Lemma delete_driver_cascades_witness :
  exists db',
    get_db (delete_driver (new_id 1)) example_db
      = (Ok {| detail := "Driver deleted" |}, db') /\
    drivers db'
      = filter (fun d => negb (DriverDB_id d =? new_id 1))
               (drivers example_db) /\
    laps db'
      = filter (fun l => negb (LapDB_driver_id l =? new_id 1))
               (laps example_db) /\
    List.length (laps db') + List.length (laps_of (new_id 1) example_db)
      = List.length (laps example_db) /\
    (forall row,
       store (snd (delete_driver_object row
                     {| store := example_db; pending := [] |}))
       = example_db) /\
    (forall l X, In l (laps example_db) -> LapDB_driver_id l = new_id 1 ->
       get_db (get_lap X (LapDB_id l)) db' = (Raised LapNotFound, db')) /\
    get_db (get_driver (new_id 1)) db' = (Raised DriverNotFound, db') /\
    get_db (get_laps (new_id 1)) db' = (Raised DriverNotFound, db').
Proof.
  apply (delete_driver_cascades example_db (new_id 1)).
  - exists example_trace. reflexivity.
  - vm_compute. left. reflexivity.
Defined.

(** ** No orphaned laps *)

(** C3. In every state reachable from the empty store by the requests of
    the application, the [driver_id] of every stored lap is the [id] of a
    stored driver. *)
Theorem no_orphaned_laps db l :
  reachable db ->
  In l (laps db) ->
  exists d, In d (drivers db) /\ DriverDB_id d = LapDB_driver_id l.
Proof.
  intros Hreach Hin. apply reachable_consistent in Hreach.
  pose proof (laps_fk _ Hreach l Hin) as H. unfold driver_ids in H.
  apply in_map_iff in H. destruct H as [d [Hid Hd]]. eauto.
Qed.

Lemma no_orphaned_laps_witness :
  exists d, In d (drivers example_db) /\
            DriverDB_id d = LapDB_driver_id (new_lap 5 (new_id 4)
              {| LapCreate_lap_time := lap_time_78_1;
                 LapCreate_track := "Spa" |}).
Proof.
  apply (no_orphaned_laps example_db).
  - exists example_trace. reflexivity.
  - vm_compute. right. right. left. reflexivity.
Defined.

(** ** Lap routes under an unknown driver *)

(** C10. In a reachable state, when no driver has the identifier
    [driver_id], [get_lap], [update_lap] and [delete_lap] under that
    [driver_id] raise "Lap not found", which is not "Driver not found", for
    every [lap_id]: they look the lap up by both identifiers and never look
    the driver up.  The database is left as it was. *)
Theorem lap_routes_without_driver db driver_id lap_id u :
  reachable db ->
  ~ In driver_id (driver_ids db) ->
  get_db (get_lap driver_id lap_id) db = (Raised LapNotFound, db) /\
  get_db (update_lap driver_id lap_id u) db = (Raised LapNotFound, db) /\
  get_db (delete_lap driver_id lap_id) db = (Raised LapNotFound, db) /\
  LapNotFound <> DriverNotFound.
Proof.
  intros Hreach Hno. apply reachable_consistent in Hreach.
  assert (E : first_lap lap_id driver_id db = None).
  { apply first_lap_none. intros row Hin _ Hown.
    apply Hno. rewrite <- Hown. exact (laps_fk _ Hreach row Hin). }
  rewrite get_lap_eq, update_lap_eq, delete_lap_eq, E.
  repeat split. discriminate.
Qed.

Lemma lap_routes_without_driver_witness :
  get_db (get_lap "nobody" (new_id 2)) example_db
    = (Raised LapNotFound, example_db) /\
  get_db (update_lap "nobody" (new_id 2)
            {| LapUpdate_lap_time := lap_time_78_1;
               LapUpdate_track := "Spa" |}) example_db
    = (Raised LapNotFound, example_db) /\
  get_db (delete_lap "nobody" (new_id 2)) example_db
    = (Raised LapNotFound, example_db) /\
  LapNotFound <> DriverNotFound.
Proof.
  apply (lap_routes_without_driver example_db "nobody" (new_id 2)).
  - exists example_trace. reflexivity.
  - vm_compute.
    intros [H | [H | H]]; [discriminate H | discriminate H | exact H].
Defined.

(** ** Lap times *)

(** What the column keeps of a positive time is that time. *)
Lemma stored_real_positive x t :
  stored_real x = Some t -> positive_time x = true -> positive_time t = true.
Proof.
  destruct x; cbn [stored_real]; intros [= <-]; auto; discriminate.
Qed.

Lemma after_all_positive db rq :
  supplies_positive rq = true -> all_positive db -> all_positive (after db rq).
Proof.
  intros Hrq H. unfold after. destruct rq; cbn [serve].
  - rewrite lifespan_eq.
    destruct (Nat.eqb _ _); [|exact H].
    destruct (_ || _ || _); [exact H|]. cbn [answer snd].
    intros l Hin. unfold with_laps, with_driver, seed_laps in Hin.
    cbn [laps] in Hin. apply in_app_or in Hin.
    destruct Hin as [Hin | [<- | [<- | []]]]; [now apply H | | ]; reflexivity.
  - rewrite create_driver_eq. destruct (has_driver _ _); exact H.
  - rewrite get_drivers_eq. exact H.
  - rewrite get_driver_eq. destruct (first_driver _ _); exact H.
  - rewrite update_driver_eq. destruct (first_driver _ _); exact H.
  - rewrite delete_driver_eq.
    destruct (first_driver _ _); [|exact H]. cbn [answer snd].
    intros l Hin. unfold without_driver, without_laps in Hin.
    cbn [laps] in Hin. apply filter_In in Hin. now apply H.
  - rewrite create_lap_eq.
    destruct (first_driver _ _); [|exact H].
    destruct (has_lap _ _); [exact H|].
    destruct (stored_real _) as [t|] eqn:S; [|exact H]. cbn [answer snd].
    intros l Hin. unfold with_laps in Hin. cbn [laps] in Hin.
    apply in_app_or in Hin. destruct Hin as [Hin | [<- | []]];
      [now apply H|].
    exact (stored_real_positive _ _ S Hrq).
  - rewrite get_laps_eq. destruct (first_driver _ _); exact H.
  - rewrite get_lap_eq. destruct (first_lap _ _ _); exact H.
  - rewrite update_lap_eq.
    destruct (first_lap _ _ _); [|exact H].
    destruct (stored_real _) as [t|] eqn:S; [|exact H]. cbn [answer snd].
    intros k Hin. unfold retimed in Hin. cbn [laps] in Hin.
    apply in_map_iff in Hin. destruct Hin as [x [<- Hin]].
    unfold set_fields. destruct (LapDB_id x =? lap_id);
      [exact (stored_real_positive _ _ S Hrq) | now apply H].
  - rewrite delete_lap_eq.
    destruct (first_lap _ _ _); [|exact H]. cbn [answer snd].
    intros k Hin. unfold without_laps in Hin.
    cbn [laps] in Hin. apply filter_In in Hin. now apply H.
Qed.

Lemma run_all_positive trace db :
  forallb supplies_positive trace = true ->
  all_positive db -> all_positive (run trace db).
Proof.
  revert db. induction trace as [|rq trace IH]; intros db Ht H; [exact H|].
  cbn [forallb] in Ht. apply andb_true_iff in Ht. destruct Ht as [Hrq Ht].
  cbn [run fold_left]. apply IH; [assumption|].
  now apply after_all_positive.
Qed.

(** C4, as the code has it.  [create_lap] and [update_lap] write the
    [lap_time] of the request to the column and do not look at its sign.
    After any sequence of requests that supply positive lap times only,
    every stored lap has a positive [lap_time]. *)
Theorem positive_supplied_positive_stored trace l :
  forallb supplies_positive trace = true ->
  In l (laps (run trace empty_database)) ->
  positive_time (LapDB_lap_time l) = true.
Proof.
  intros Ht Hin. revert l Hin. apply run_all_positive; [assumption|].
  intros l [].
Qed.

Lemma positive_supplied_positive_stored_witness :
  positive_time
    (LapDB_lap_time (new_lap 5 (new_id 4)
       {| LapCreate_lap_time := lap_time_78_1; LapCreate_track := "Spa" |}))
  = true.
Proof.
  apply (positive_supplied_positive_stored example_trace).
  - reflexivity.
  - vm_compute. right. right. left. reflexivity.
Defined.

(** C4, as stated, fails: after a driver was created, [create_lap] with
    [lap_time = -1.0] succeeds and the lap is stored with that time. *)
Lemma negative_lap_time_stored :
  let trace :=
    [ POST_drivers 0 {| DriverCreate_name := "Max Verstappen" |};
      POST_laps 1 (new_id 0) {| LapCreate_lap_time := minus_one;
                                LapCreate_track := "Spa" |} ] in
  reachable (run trace empty_database) /\
  exists l, In l (laps (run trace empty_database)) /\
            positive_time (LapDB_lap_time l) = false.
Proof.
  cbv zeta. split.
  - eexists. reflexivity.
  - exists {| LapDB_id := new_id 1; LapDB_lap_time := minus_one;
              LapDB_track := "Spa"; LapDB_driver_id := new_id 0 |}.
    split; [vm_compute; left; reflexivity | reflexivity].
Qed.

(** ** Failed requests *)

(** C5. A request that raises leaves the database as it was, whichever
    request and whichever exception: the 404 of a route that does not find
    its driver or lap, or the error of a commit.  In particular
    [delete_driver] on an identifier that no driver has raises "Driver not
    found" and changes no driver and no lap. *)
Theorem failed_request_changes_nothing db :
  (forall i, ~ In i (driver_ids db) ->
     get_db (delete_driver i) db = (Raised DriverNotFound, db)) /\
  (forall rq e, fst (serve rq db) = Raised e -> snd (serve rq db) = db).
Proof.
  split.
  - intros i Hno. rewrite delete_driver_eq.
    apply first_driver_none in Hno. now rewrite Hno.
  - intros rq e. destruct rq; cbn [serve].
    + rewrite lifespan_eq. destruct (Nat.eqb _ _); [|discriminate].
      destruct (_ || _ || _); [reflexivity | discriminate].
    + rewrite create_driver_eq.
      destruct (has_driver _ _); [reflexivity | discriminate].
    + rewrite get_drivers_eq. discriminate.
    + rewrite get_driver_eq. destruct (first_driver _ _); reflexivity.
    + rewrite update_driver_eq.
      destruct (first_driver _ _); [discriminate | reflexivity].
    + rewrite delete_driver_eq.
      destruct (first_driver _ _); [discriminate | reflexivity].
    + rewrite create_lap_eq. destruct (first_driver _ _); [|reflexivity].
      destruct (has_lap _ _); [reflexivity|].
      destruct (stored_real _); [discriminate | reflexivity].
    + rewrite get_laps_eq. destruct (first_driver _ _); reflexivity.
    + rewrite get_lap_eq. destruct (first_lap _ _ _); reflexivity.
    + rewrite update_lap_eq.
      destruct (first_lap _ _ _); [|reflexivity].
      destruct (stored_real _); [discriminate | reflexivity].
    + rewrite delete_lap_eq.
      destruct (first_lap _ _ _); [discriminate | reflexivity].
Qed.

Lemma failed_request_changes_nothing_witness :
  get_db (delete_driver "nobody") example_db
    = (Raised DriverNotFound, example_db) /\
  snd (serve (PUT_driver "nobody" {| DriverUpdate_name := "Nobody" |})
             example_db) = example_db.
Proof.
  destruct (failed_request_changes_nothing example_db) as [Hdelete Hany].
  split.
  - apply Hdelete. vm_compute.
    intros [H | [H | H]]; [discriminate H | discriminate H | exact H].
  - apply (Hany _ DriverNotFound). reflexivity.
Defined.

(** ** Updates applied twice *)

Lemma set_name_twice i name d :
  set_name i name (set_name i name d) = set_name i name d.
Proof.
  unfold set_name at 2. destruct (DriverDB_id d =? i) eqn:E.
  - unfold set_name. cbn [DriverDB_id]. now rewrite E.
  - unfold set_name. now rewrite E.
Qed.

Lemma set_fields_twice i t k l :
  set_fields i t k (set_fields i t k l) = set_fields i t k l.
Proof.
  unfold set_fields at 2. destruct (LapDB_id l =? i) eqn:E.
  - unfold set_fields. cbn [LapDB_id]. now rewrite E.
  - unfold set_fields. now rewrite E.
Qed.

Lemma renamed_twice i name db :
  renamed i name (renamed i name db) = renamed i name db.
Proof.
  unfold renamed. cbn [drivers laps]. f_equal.
  rewrite map_map. apply map_ext. intros d. apply set_name_twice.
Qed.

Lemma retimed_twice l u db : retimed l u (retimed l u db) = retimed l u db.
Proof.
  unfold retimed. cbn [drivers laps]. f_equal.
  rewrite map_map. apply map_ext. intros x. apply set_fields_twice.
Qed.

Lemma first_lap_found db l i row :
  In row (laps db) -> LapDB_id row = l -> LapDB_driver_id row = i ->
  exists row', first_lap l i db = Some row'.
Proof.
  intros Hin Hid Hown. destruct (first_lap l i db) as [row'|] eqn:E; [eauto|].
  exfalso. exact (proj1 (first_lap_none db l i) E row Hin Hid Hown).
Qed.

Lemma first_driver_found db i :
  In i (driver_ids db) -> exists row, first_driver i db = Some row.
Proof.
  intros Hin. destruct (first_driver i db) as [row|] eqn:E; [eauto|].
  apply first_driver_none in E. contradiction.
Qed.

(** C6. [update_driver] and [update_lap] are idempotent.  When the driver
    exists, [update_driver] with the same name answers the same driver the
    second time as the first and commits the same database.  When the lap
    exists under the driver, [update_lap] with the same fields ends the
    second time as the first (with the same lap, or with the same error
    when the column refuses the [lap_time], a NaN) and leaves the database
    that the first left.  Neither adds a row: the identifiers of both
    tables are as before. *)
Theorem updates_are_idempotent db :
  (forall i u, In i (driver_ids db) ->
     exists d db1,
       get_db (update_driver i u) db = (Ok d, db1) /\
       get_db (update_driver i u) db1 = (Ok d, db1) /\
       driver_ids db1 = driver_ids db /\ lap_ids db1 = lap_ids db) /\
  (forall i l u row,
     In row (laps db) -> LapDB_id row = l -> LapDB_driver_id row = i ->
     exists res db1,
       get_db (update_lap i l u) db = (res, db1) /\
       get_db (update_lap i l u) db1 = (res, db1) /\
       driver_ids db1 = driver_ids db /\ lap_ids db1 = lap_ids db /\
       (forall t, stored_real (LapUpdate_lap_time u) = Some t ->
          res = Ok {| Lap_id := Some l;
                      Lap_lap_time := t;
                      Lap_track := LapUpdate_track u |}) /\
       (stored_real (LapUpdate_lap_time u) = None ->
          res = Raised IntegrityError /\ db1 = db)).
Proof.
  split.
  - intros i u Hin. destruct (first_driver_found db i Hin) as [row E].
    do 2 eexists. rewrite !update_driver_eq, E. cbv zeta.
    split; [reflexivity|].
    rewrite (first_driver_renamed _ (DriverUpdate_name u) _ _ E).
    rewrite renamed_twice. split; [reflexivity|].
    unfold driver_ids, lap_ids, renamed. cbn [drivers laps].
    now rewrite map_id_set_name.
  - intros i l u row Hin Hid Hown.
    destruct (first_lap_found db l i row Hin Hid Hown) as [row1 E].
    destruct (stored_real (LapUpdate_lap_time u)) as [t|] eqn:S.
    + assert (Hin' : In (set_fields l t (LapUpdate_track u) row)
                        (laps (retimed l (LapUpdate_kept t u) db)))
        by (unfold retimed; cbn [laps]; now apply in_map).
      destruct (first_lap_found (retimed l (LapUpdate_kept t u) db) l i
                  _ Hin') as [row2 E'].
      { now rewrite set_fields_id. }
      { now rewrite set_fields_owner. }
      do 2 eexists. rewrite !update_lap_eq, E, S.
      split; [reflexivity|]. rewrite E', retimed_twice.
      split; [reflexivity|].
      unfold driver_ids, lap_ids, retimed. cbn [drivers laps].
      rewrite map_id_set_fields.
      split; [reflexivity|]. split; [reflexivity|].
      split; [now intros t' [= <-] | discriminate].
    + exists (Raised IntegrityError), db. rewrite !update_lap_eq, E, S.
      repeat split; discriminate.
Qed.

Lemma updates_are_idempotent_witness :
  (exists d db1,
     get_db (update_driver (new_id 4) {| DriverUpdate_name := "Max" |})
            example_db = (Ok d, db1) /\
     get_db (update_driver (new_id 4) {| DriverUpdate_name := "Max" |})
            db1 = (Ok d, db1) /\
     driver_ids db1 = driver_ids example_db /\
     lap_ids db1 = lap_ids example_db) /\
  (exists res db1,
     get_db (update_lap (new_id 1) (new_id 3)
               {| LapUpdate_lap_time := lap_time_78_1;
                  LapUpdate_track := "Spa" |}) example_db = (res, db1) /\
     get_db (update_lap (new_id 1) (new_id 3)
               {| LapUpdate_lap_time := lap_time_78_1;
                  LapUpdate_track := "Spa" |}) db1 = (res, db1) /\
     driver_ids db1 = driver_ids example_db /\
     lap_ids db1 = lap_ids example_db /\
     (forall t, stored_real lap_time_78_1 = Some t ->
        res = Ok {| Lap_id := Some (new_id 3);
                    Lap_lap_time := t;
                    Lap_track := "Spa" |}) /\
     (stored_real lap_time_78_1 = None ->
        res = Raised IntegrityError /\ db1 = example_db)).
Proof.
  destruct (updates_are_idempotent example_db) as [Hdriver Hlap].
  split.
  - apply Hdriver. vm_compute. right. left. reflexivity.
  - apply (Hlap (new_id 1) (new_id 3)
             {| LapUpdate_lap_time := lap_time_78_1;
                LapUpdate_track := "Spa" |}
             {| LapDB_id := new_id 3;
                LapDB_lap_time := lap_time_86_2;
                LapDB_track := "Monza";
                LapDB_driver_id := new_id 1 |}).
    + vm_compute. right. left. reflexivity.
    + reflexivity.
    + reflexivity.
Defined.

(** ** Create, create, read *)

(** What the column keeps of a time is the same number. *)
Lemma stored_real_same_number x t :
  stored_real x = Some t -> same_number t x = true.
Proof.
  unfold same_number, SFeqb.
  destruct x as [s|s| |s m e]; cbn [stored_real]; intros [= <-].
  - reflexivity.
  - now destruct s.
  - cbn [SFcompare]. rewrite Z.compare_refl.
    change (PosDef.Pos.compare_cont Eq m m) with (Pos.compare m m).
    rewrite Pos.compare_refl. now destruct s.
Qed.

(** The column changes a time only when it is -0.0. *)
Lemma stored_real_as_written x t :
  stored_real x = Some t -> x <> S754_zero true -> t = x.
Proof.
  destruct x as [[|]|s| |s m e]; cbn [stored_real]; intros [= <-] H;
    [now contradiction H | reflexivity | reflexivity | reflexivity].
Qed.

(** C7, as the code has it.  From any database: when [create_driver]
    answers a driver [D] and [create_lap] under the [id] of [D] answers a
    lap [L], then [get_driver] on that [id] succeeds, changes nothing, and
    the [laps] of its answer contain [L].  The [track] of [L] is that of
    the request; its [lap_time] is what the column keeps of the time of
    the request: the same number, and the same value unless the request
    supplied -0.0. *)
Theorem created_lap_is_read_back db r1 driver D i db1 r2 lap L db2 :
  get_db (create_driver r1 driver) db = (Ok D, db1) ->
  Driver_id D = Some i ->
  get_db (create_lap r2 i lap) db1 = (Ok L, db2) ->
  exists D',
    get_db (get_driver i) db2 = (Ok D', db2) /\
    Driver_id D' = Some i /\
    Driver_name D' = DriverCreate_name driver /\
    In L (Driver_laps D') /\
    Lap_track L = LapCreate_track lap /\
    stored_real (LapCreate_lap_time lap) = Some (Lap_lap_time L) /\
    same_number (Lap_lap_time L) (LapCreate_lap_time lap) = true /\
    (LapCreate_lap_time lap <> S754_zero true ->
     Lap_lap_time L = LapCreate_lap_time lap).
Proof.
  rewrite create_driver_eq.
  destruct (has_driver (new_id r1) db) eqn:E1; [discriminate|].
  cbv zeta. intros [= <- <-].
  cbn [Driver_view Driver_id new_driver DriverDB_id].
  intros [= <-]. rewrite create_lap_eq.
  pose proof (first_driver_new (new_driver r1 driver) db E1) as F.
  cbn [new_driver DriverDB_id] in F. fold (new_driver r1 driver) in F.
  rewrite F.
  destruct (has_lap (new_id r2) _) eqn:E2; [discriminate|].
  destruct (stored_real (LapCreate_lap_time lap)) as [t|] eqn:S;
    [|discriminate].
  intros [= <- <-].
  exists (Driver_view
            (with_laps [new_lap r2 (new_id r1) (LapCreate_kept t lap)]
               (with_driver (new_driver r1 driver) db))
            (new_driver r1 driver)).
  rewrite get_driver_eq.
  replace (first_driver (new_id r1) (with_laps _ _))
    with (Some (new_driver r1 driver)) by (symmetry; exact F).
  split; [reflexivity|]. split; [reflexivity|]. split; [reflexivity|].
  split.
  - cbn [Driver_view Driver_laps]. apply in_map. apply in_laps_of.
    split; [|reflexivity]. unfold with_laps. cbn [laps].
    apply in_or_app. right. now left.
  - cbn [Lap_from Lap_track Lap_lap_time new_lap LapCreate_kept
         LapDB_lap_time LapDB_track LapCreate_lap_time LapCreate_track].
    split; [reflexivity|]. split; [reflexivity|]. split.
    + exact (stored_real_same_number _ _ S).
    + exact (stored_real_as_written _ _ S).
Qed.

Lemma created_lap_is_read_back_witness :
  exists D',
    get_db (get_driver (new_id 4)) example_db = (Ok D', example_db) /\
    Driver_id D' = Some (new_id 4) /\
    Driver_name D' = "Max Verstappen" /\
    In {| Lap_id := Some (new_id 5);
          Lap_lap_time := lap_time_78_1;
          Lap_track := "Spa" |} (Driver_laps D') /\
    Lap_track {| Lap_id := Some (new_id 5);
                 Lap_lap_time := lap_time_78_1;
                 Lap_track := "Spa" |} = "Spa" /\
    stored_real lap_time_78_1 = Some lap_time_78_1 /\
    same_number lap_time_78_1 lap_time_78_1 = true /\
    (lap_time_78_1 <> S754_zero true -> lap_time_78_1 = lap_time_78_1).
Proof.
  apply (created_lap_is_read_back
           (run [Startup 1 2 3] empty_database)
           4 {| DriverCreate_name := "Max Verstappen" |}
           {| Driver_name := "Max Verstappen";
              Driver_id := Some (new_id 4);
              Driver_laps := [] |}
           (new_id 4)
           (run [Startup 1 2 3;
                 POST_drivers 4 {| DriverCreate_name := "Max Verstappen" |}]
                empty_database)
           5 {| LapCreate_lap_time := lap_time_78_1;
                LapCreate_track := "Spa" |}
           {| Lap_id := Some (new_id 5);
              Lap_lap_time := lap_time_78_1;
              Lap_track := "Spa" |}
           example_db).
  - vm_compute. reflexivity.
  - reflexivity.
  - vm_compute. reflexivity.
Defined.

(** C7, as stated, fails: a lap created with [lap_time = -0.0] is answered,
    and listed by [get_driver], with [lap_time = +0.0]; no lap of the
    driver carries the time that was supplied. *)
Lemma minus_zero_is_read_back_as_zero :
  let driver := {| DriverCreate_name := "Max Verstappen" |} in
  let lap := {| LapCreate_lap_time := S754_zero true;
                LapCreate_track := "Spa" |} in
  exists D db1 L db2 D',
    get_db (create_driver 0 driver) empty_database = (Ok D, db1) /\
    Driver_id D = Some (new_id 0) /\
    get_db (create_lap 1 (new_id 0) lap) db1 = (Ok L, db2) /\
    get_db (get_driver (new_id 0)) db2 = (Ok D', db2) /\
    Driver_laps D' = [L] /\
    Lap_lap_time L = S754_zero false /\
    Lap_lap_time L <> LapCreate_lap_time lap.
Proof.
  cbv zeta. do 5 eexists.
  split; [vm_compute; reflexivity|]. split; [reflexivity|].
  split; [vm_compute; reflexivity|]. split; [vm_compute; reflexivity|].
  split; [reflexivity|]. split; [reflexivity|]. discriminate.
Qed.

(** ** Fresh identifiers *)

(** C8, as the code has it.  [create_driver] and [create_lap], when they
    succeed, answer an entity whose [id] is not empty and is the [id] of no
    entity of that kind in the database they were called on; the new row is
    the last of its table.  In a reachable state no two drivers and no two
    laps share an [id].  (An [id] whose entity was deleted is not kept
    anywhere: only the random draw of [uuid4] stands against its return.) *)
Theorem created_id_is_new db :
  (forall r driver D db',
     get_db (create_driver r driver) db = (Ok D, db') ->
     exists i, Driver_id D = Some i /\ i <> "" /\
               ~ In i (driver_ids db) /\
               driver_ids db' = driver_ids db ++ [i]) /\
  (forall r j lap L db',
     get_db (create_lap r j lap) db = (Ok L, db') ->
     exists k, Lap_id L = Some k /\ k <> "" /\
               ~ In k (lap_ids db) /\
               lap_ids db' = lap_ids db ++ [k]) /\
  (reachable db -> NoDup (driver_ids db) /\ NoDup (lap_ids db)).
Proof.
  split; [|split].
  - intros r driver D db'. rewrite create_driver_eq.
    destruct (has_driver (new_id r) db) eqn:E; [discriminate|].
    cbv zeta. intros [= <- <-]. exists (new_id r).
    split; [reflexivity|]. split; [apply new_id_not_empty|].
    split; [now apply has_driver_false|].
    unfold driver_ids, with_driver. cbn [drivers]. now rewrite map_app.
  - intros r j lap L db'. rewrite create_lap_eq.
    destruct (first_driver j db); [|discriminate].
    destruct (has_lap (new_id r) db) eqn:E; [discriminate|].
    destruct (stored_real _) as [t|]; [|discriminate].
    intros [= <- <-]. exists (new_id r).
    split; [reflexivity|]. split; [apply new_id_not_empty|].
    split; [now apply has_lap_false|].
    unfold lap_ids, with_laps. cbn [laps]. now rewrite map_app.
  - intros Hreach. apply reachable_consistent in Hreach.
    split; [exact (drivers_pk _ Hreach) | exact (laps_pk _ Hreach)].
Qed.

Lemma created_id_is_new_witness :
  (exists i, Some (new_id 6) = Some i /\ i <> "" /\
             ~ In i (driver_ids example_db) /\
             driver_ids
               (after example_db
                  (POST_drivers 6 {| DriverCreate_name := "Lando Norris" |}))
             = driver_ids example_db ++ [i]) /\
  (exists k, Some (new_id 7) = Some k /\ k <> "" /\
             ~ In k (lap_ids example_db) /\
             lap_ids
               (after example_db
                  (POST_laps 7 (new_id 4)
                     {| LapCreate_lap_time := lap_time_85_4;
                        LapCreate_track := "Monza" |}))
             = lap_ids example_db ++ [k]) /\
  NoDup (driver_ids example_db) /\ NoDup (lap_ids example_db).
Proof.
  destruct (created_id_is_new example_db) as [Hdriver [Hlap Hkeys]].
  split; [|split].
  - apply (Hdriver 6%N {| DriverCreate_name := "Lando Norris" |}
             {| Driver_name := "Lando Norris";
                Driver_id := Some (new_id 6);
                Driver_laps := [] |}).
    vm_compute. reflexivity.
  - apply (Hlap 7%N (new_id 4)
             {| LapCreate_lap_time := lap_time_85_4;
                LapCreate_track := "Monza" |}
             {| Lap_id := Some (new_id 7);
                Lap_lap_time := lap_time_85_4;
                Lap_track := "Monza" |}).
    vm_compute. reflexivity.
  - apply Hkeys. exists example_trace. reflexivity.
Defined.

(** C8, as stated, fails: the identifier of a deleted driver can be issued
    again.  When [uuid4] reads the same sixteen bytes as for a driver that
    was created and deleted, [create_driver] succeeds and answers the
    identifier it had issued before. *)
Lemma deleted_id_issued_again :
  let trace :=
    [ POST_drivers 0 {| DriverCreate_name := "Max Verstappen" |};
      DELETE_driver (new_id 0) ] in
  fst (serve (POST_drivers 0 {| DriverCreate_name := "Lando Norris" |})
             (run trace empty_database))
  = Ok (One_driver {| Driver_name := "Lando Norris";
                      Driver_id := Some (new_id 0);
                      Driver_laps := [] |}) /\
  In (new_id 0) (issued_drivers trace empty_database).
Proof.
  cbv zeta. split; vm_compute; [reflexivity | left; reflexivity].
Qed.

(** ** The laps of a driver *)

(** C9. After any run from the empty store, [get_laps driver_id] raises
    "Driver not found" when no driver has that identifier; otherwise it
    answers the laps of that driver and no other, in the order in which
    they were inserted: their identifiers are the log of the insertions
    (each identifier at its latest insertion) restricted to the laps the
    driver owns. *)
Theorem get_laps_in_insertion_order trace i :
  let db := run trace empty_database in
  (~ In i (driver_ids db) ->
     get_db (get_laps i) db = (Raised DriverNotFound, db)) /\
  (In i (driver_ids db) ->
     exists ls,
       get_db (get_laps i) db = (Ok ls, db) /\
       (forall x, In x ls <->
                  exists row, In row (laps db) /\ LapDB_driver_id row = i /\
                              x = Lap_from row) /\
       map Lap_id ls
       = map Some (filter (owns db i)
                          (latest (insertions trace empty_database)))).
Proof.
  cbv zeta. set (db := run trace empty_database).
  assert (ok : consistent db) by (apply run_consistent, consistent_empty).
  split.
  - intros Hno. rewrite get_laps_eq.
    apply first_driver_none in Hno. now rewrite Hno.
  - intros Hin. destruct (first_driver_found db i Hin) as [row E].
    exists (map Lap_from (laps_of i db)).
    rewrite get_laps_eq, E. split; [reflexivity|]. split.
    + intros x. rewrite in_map_iff. split.
      * intros [r [Hx Hr]]. apply in_laps_of in Hr. exists r. intuition.
      * intros [r [Hr [Hown Hx]]]. exists r. split; [auto|].
        apply in_laps_of. auto.
    + rewrite map_map.
      rewrite <- (map_map LapDB_id Some). f_equal.
      rewrite (ids_of_laps_of i db ok).
      apply in_log_order_select; [apply run_in_log_order | apply owns_in].
Qed.

Lemma get_laps_in_insertion_order_witness :
  get_db (get_laps "nobody") example_db
    = (Raised DriverNotFound, example_db) /\
  exists ls,
    get_db (get_laps (new_id 1)) example_db = (Ok ls, example_db) /\
    (forall x, In x ls <->
               exists row, In row (laps example_db) /\
                           LapDB_driver_id row = new_id 1 /\
                           x = Lap_from row) /\
    map Lap_id ls
    = map Some (filter (owns example_db (new_id 1))
                       (latest (insertions example_trace empty_database))).
Proof.
  split.
  - apply (get_laps_in_insertion_order example_trace "nobody").
    vm_compute.
    intros [H | [H | H]]; [discriminate H | discriminate H | exact H].
  - apply (get_laps_in_insertion_order example_trace (new_id 1)).
    vm_compute. left. reflexivity.
Defined.

(** * Further properties of the endpoints *)

(** ** Reads after a write to another row *)

Lemma first_driver_renamed_other i j name db :
  j <> i -> first_driver j (renamed i name db) = first_driver j db.
Proof.
  intros Hji. unfold first_driver, renamed. cbn [drivers].
  induction (drivers db) as [|d ds IH]; [reflexivity|]. cbn [map find].
  rewrite set_name_id, IH. destruct (DriverDB_id d =? j) eqn:E; [|reflexivity].
  unfold set_name. apply String.eqb_eq in E.
  destruct (DriverDB_id d =? i) eqn:E'; [|reflexivity].
  apply String.eqb_eq in E'. congruence.
Qed.

Lemma first_lap_retimed_other l k j u db :
  k <> l -> first_lap k j (retimed l u db) = first_lap k j db.
Proof.
  intros Hkl. unfold first_lap, retimed. cbn [laps].
  induction (laps db) as [|x xs IH]; [reflexivity|]. cbn [map find].
  rewrite set_fields_id, set_fields_owner, IH.
  destruct (LapDB_id x =? k) eqn:E; [|reflexivity]. cbn [andb].
  destruct (LapDB_driver_id x =? j); [|reflexivity].
  unfold set_fields. apply String.eqb_eq in E.
  destruct (LapDB_id x =? l) eqn:E'; [|reflexivity].
  apply String.eqb_eq in E'. congruence.
Qed.

Lemma first_lap_retimed_same l i u row db :
  first_lap l i db = Some row ->
  first_lap l i (retimed l u db)
  = Some {| LapDB_id := l;
            LapDB_lap_time := LapUpdate_lap_time u;
            LapDB_track := LapUpdate_track u;
            LapDB_driver_id := i |}.
Proof.
  unfold first_lap, retimed. cbn [laps].
  induction (laps db) as [|x xs IH]; cbn [map find]; [discriminate|].
  rewrite set_fields_id, set_fields_owner.
  destruct (LapDB_id x =? l) eqn:E; cbn [andb]; [|exact IH].
  destruct (LapDB_driver_id x =? i) eqn:E'; [|exact IH].
  intros _. unfold set_fields. rewrite E.
  apply String.eqb_eq in E. apply String.eqb_eq in E'. now rewrite E, E'.
Qed.

Lemma ids_of_laps_of_retimed l u j db :
  map LapDB_id (laps_of j (retimed l u db)) = map LapDB_id (laps_of j db).
Proof.
  unfold laps_of, retimed. cbn [laps].
  induction (laps db) as [|x xs IH]; [reflexivity|]. cbn [map filter].
  rewrite set_fields_owner.
  destruct (LapDB_driver_id x =? j); cbn [map];
    [rewrite set_fields_id, IH | rewrite IH]; reflexivity.
Qed.

Lemma first_driver_without_other D j db :
  j <> D -> first_driver j (without_driver D db) = first_driver j db.
Proof.
  intros HjD. unfold first_driver, without_driver. cbn [drivers].
  induction (drivers db) as [|d ds IH]; [reflexivity|]. cbn [filter find].
  destruct (DriverDB_id d =? D) eqn:E; cbn [negb find]; rewrite IH.
  - destruct (DriverDB_id d =? j) eqn:E'; [|reflexivity].
    apply String.eqb_eq in E. apply String.eqb_eq in E'. congruence.
  - reflexivity.
Qed.

Lemma first_lap_without_other l k j db :
  k <> l -> first_lap k j (without_laps [l] db) = first_lap k j db.
Proof.
  intros Hkl. unfold first_lap, without_laps. cbn [laps existsb].
  induction (laps db) as [|x xs IH]; [reflexivity|]. cbn [filter find].
  rewrite orb_false_r.
  destruct (LapDB_id x =? l) eqn:E; cbn [negb find]; rewrite IH.
  - destruct (LapDB_id x =? k) eqn:E'; [|reflexivity].
    apply String.eqb_eq in E. apply String.eqb_eq in E'. congruence.
  - reflexivity.
Qed.

Lemma first_lap_without_same l j db :
  first_lap l j (without_laps [l] db) = None.
Proof.
  apply first_lap_none. intros row Hin Hid _.
  unfold without_laps in Hin. cbn [laps existsb] in Hin.
  apply filter_In in Hin. destruct Hin as [_ Hne].
  rewrite orb_false_r in Hne.
  apply negb_true_iff, String.eqb_neq in Hne. contradiction.
Qed.

(** In a table with unique keys, deleting by key removes one row. *)
Lemma one_row_less l rows :
  NoDup (map LapDB_id rows) -> In l (map LapDB_id rows) ->
  List.length (filter (fun x => negb (LapDB_id x =? l)) rows) + 1
  = List.length rows.
Proof.
  induction rows as [|x xs IH]; cbn [map]; [intros _ []|].
  intros H. inversion H as [|? ? Hx Hxs]; subst. cbn [filter].
  destruct (LapDB_id x =? l) eqn:E; cbn [negb List.length].
  - intros _. apply String.eqb_eq in E. subst l.
    rewrite filter_all; [lia|].
    intros y Hy. apply negb_true_iff, String.eqb_neq. intros Heq.
    apply Hx. rewrite <- Heq. now apply in_map.
  - intros [Heq | Hin].
    + apply String.eqb_neq in E. contradiction.
    + specialize (IH Hxs Hin). lia.
Qed.

(** ** The example data *)

(** X1. [lifespan] seeds at most once: after a start of the process that
    succeeded, on whatever database, a further start changes nothing,
    whichever identifiers it would draw. *)
Theorem second_startup_changes_nothing db r0 r1 r2 s0 s1 s2 :
  fst (serve (Startup r0 r1 r2) db) = Ok Started ->
  serve (Startup s0 s1 s2) (after db (Startup r0 r1 r2))
  = (Ok Started, after db (Startup r0 r1 r2)).
Proof.
  unfold after. cbn [serve]. rewrite !lifespan_eq.
  destruct (Nat.eqb (List.length (drivers db)) 0) eqn:E.
  - destruct (_ || _ || _); [discriminate|]. intros _. cbn [answer snd].
    unfold with_laps, with_driver. cbn [drivers].
    rewrite length_app. cbn [List.length].
    replace (List.length (drivers db) + 1) with (S (List.length (drivers db)))
      by lia.
    reflexivity.
  - intros _. cbn [answer snd]. rewrite E. reflexivity.
Qed.

Lemma second_startup_changes_nothing_witness :
  serve (Startup 7 8 9) (after empty_database (Startup 1 2 3))
  = (Ok Started, after empty_database (Startup 1 2 3)).
Proof.
  apply (second_startup_changes_nothing empty_database 1 2 3 7 8 9).
  reflexivity.
Defined.

(** X2. [lifespan] seeds whenever the drivers table is empty, not on the
    first run only.  In a reachable state without drivers (also one whose
    drivers were all deleted), a start that draws two different lap
    identifiers commits exactly the example data, and [get_driver] on the
    new identifier answers "Lewis Hamilton" with the laps of Silverstone
    and Monza, in that order. *)
Theorem startup_seeds_when_no_driver db r0 r1 r2 :
  reachable db ->
  drivers db = [] ->
  new_id r1 <> new_id r2 ->
  let seeded := {| drivers := [seed_driver r0];
                   laps := seed_laps r0 r1 r2 |} in
  serve (Startup r0 r1 r2) db = (Ok Started, seeded) /\
  get_db (get_driver (new_id r0)) seeded
  = (Ok {| Driver_name := "Lewis Hamilton";
           Driver_id := Some (new_id r0);
           Driver_laps :=
             [ {| Lap_id := Some (new_id r1);
                  Lap_lap_time := lap_time_85_4;
                  Lap_track := "Silverstone" |};
               {| Lap_id := Some (new_id r2);
                  Lap_lap_time := lap_time_86_2;
                  Lap_track := "Monza" |} ] |}, seeded).
Proof.
  intros Hreach Hnone Hdiff. apply reachable_consistent in Hreach.
  assert (Hlaps : laps db = []).
  { destruct (laps db) as [|l ls] eqn:E; [reflexivity|].
    pose proof (laps_fk _ Hreach l) as H. rewrite E in H.
    specialize (H (or_introl eq_refl)). unfold driver_ids in H.
    rewrite Hnone in H. destruct H. }
  cbv zeta. split.
  - cbn [serve]. rewrite lifespan_eq, Hnone. cbn [List.length Nat.eqb].
    unfold has_lap. rewrite Hlaps. cbn [existsb orb].
    apply String.eqb_neq in Hdiff. rewrite Hdiff. cbn [answer].
    unfold with_laps, with_driver. cbn [drivers laps].
    now rewrite Hnone, Hlaps.
  - rewrite get_driver_eq. unfold first_driver. cbn [drivers find seed_driver
      DriverDB_id]. rewrite String.eqb_refl.
    unfold Driver_view, laps_of, seed_laps.
    cbn [laps filter LapDB_driver_id DriverDB_id DriverDB_name].
    rewrite String.eqb_refl. reflexivity.
Qed.

Lemma startup_seeds_when_no_driver_witness :
  let db := run [ POST_drivers 0 {| DriverCreate_name := "Max Verstappen" |};
                  DELETE_driver (new_id 0) ] empty_database in
  let seeded := {| drivers := [seed_driver 1]; laps := seed_laps 1 2 3 |} in
  serve (Startup 1 2 3) db = (Ok Started, seeded) /\
  get_db (get_driver (new_id 1)) seeded
  = (Ok {| Driver_name := "Lewis Hamilton";
           Driver_id := Some (new_id 1);
           Driver_laps :=
             [ {| Lap_id := Some (new_id 2);
                  Lap_lap_time := lap_time_85_4;
                  Lap_track := "Silverstone" |};
               {| Lap_id := Some (new_id 3);
                  Lap_lap_time := lap_time_86_2;
                  Lap_track := "Monza" |} ] |}, seeded).
Proof.
  apply (startup_seeds_when_no_driver
           (run [ POST_drivers 0 {| DriverCreate_name := "Max Verstappen" |};
                  DELETE_driver (new_id 0) ] empty_database) 1 2 3).
  - eexists. reflexivity.
  - reflexivity.
  - vm_compute. intros H. discriminate H.
Defined.

(** ** The exceptions of each route *)

(** X3. The exceptions a request can end with are those of its route: the
    list of drivers never fails; the routes on one driver and the list of
    laps raise "Driver not found" only; [get_lap] and [delete_lap] raise
    "Lap not found" only; [update_lap] raises "Lap not found" or fails at
    its commit (a NaN [lap_time]); the two creations and the start of the
    process can fail at their commit, and [create_lap] also on a missing
    driver.  No [refresh] ever misses its row. *)
Theorem exceptions_of_each_route rq db e :
  fst (serve rq db) = Raised e -> may_raise rq e.
Proof.
  destruct rq; cbn [serve may_raise].
  - rewrite lifespan_eq. destruct (Nat.eqb _ _); [|discriminate].
    destruct (_ || _ || _); [|discriminate]. now intros [= <-].
  - rewrite create_driver_eq.
    destruct (has_driver _ _); [|discriminate]. now intros [= <-].
  - rewrite get_drivers_eq. discriminate.
  - rewrite get_driver_eq.
    destruct (first_driver _ _); [discriminate|]. now intros [= <-].
  - rewrite update_driver_eq.
    destruct (first_driver _ _); [discriminate|]. now intros [= <-].
  - rewrite delete_driver_eq.
    destruct (first_driver _ _); [discriminate|]. now intros [= <-].
  - rewrite create_lap_eq.
    destruct (first_driver _ _); [|intros [= <-]; now left].
    destruct (has_lap _ _); [intros [= <-]; now right|].
    destruct (stored_real _); [discriminate|]. intros [= <-]. now right.
  - rewrite get_laps_eq.
    destruct (first_driver _ _); [discriminate|]. now intros [= <-].
  - rewrite get_lap_eq.
    destruct (first_lap _ _ _); [discriminate|]. now intros [= <-].
  - rewrite update_lap_eq.
    destruct (first_lap _ _ _); [|intros [= <-]; now left].
    destruct (stored_real _); [discriminate|]. intros [= <-]. now right.
  - rewrite delete_lap_eq.
    destruct (first_lap _ _ _); [discriminate|]. now intros [= <-].
Qed.

Lemma exceptions_of_each_route_witness :
  may_raise (POST_laps 5 "nobody" {| LapCreate_lap_time := lap_time_78_1;
                                     LapCreate_track := "Spa" |})
            DriverNotFound.
Proof.
  apply (exceptions_of_each_route _ example_db). reflexivity.
Defined.

(** ** The list of drivers *)

(** X4. In a reachable state [get_drivers] answers one driver per row, in
    the order of the table, and its entries are the answers of
    [get_driver]: a driver is listed when, and only when, [get_driver] on
    some identifier answers it. *)
Theorem get_drivers_lists_get_driver db :
  reachable db ->
  exists ds,
    get_db get_drivers db = (Ok ds, db) /\
    map Driver_id ds = map Some (driver_ids db) /\
    (forall D, In D ds <->
               exists i, get_db (get_driver i) db = (Ok D, db)).
Proof.
  intros Hreach. apply reachable_consistent in Hreach.
  exists (map (Driver_view db) (drivers db)). rewrite get_drivers_eq.
  split; [reflexivity|]. split.
  - unfold driver_ids. rewrite !map_map. reflexivity.
  - intros D. rewrite in_map_iff. split.
    + intros [row [<- Hin]]. exists (DriverDB_id row). rewrite get_driver_eq.
      destruct (first_driver (DriverDB_id row) db) as [row'|] eqn:E.
      * apply first_driver_some in E. destruct E as [Hin' Hid].
        assert (row' = row)
          by (apply (unique_keys_row DriverDB_id (drivers db));
              [exact (drivers_pk _ Hreach) | assumption | assumption
              | assumption]).
        now subst row'.
      * apply first_driver_none in E. exfalso. apply E.
        unfold driver_ids. now apply in_map.
    + intros [i H]. rewrite get_driver_eq in H.
      destruct (first_driver i db) as [row|] eqn:E; [|discriminate].
      apply first_driver_some in E. destruct E as [Hin _].
      exists row. split; [congruence | assumption].
Qed.

Lemma get_drivers_lists_get_driver_witness :
  exists ds,
    get_db get_drivers example_db = (Ok ds, example_db) /\
    map Driver_id ds = map Some (driver_ids example_db) /\
    (forall D, In D ds <->
               exists i, get_db (get_driver i) example_db
                         = (Ok D, example_db)).
Proof.
  apply (get_drivers_lists_get_driver example_db).
  exists example_trace. reflexivity.
Defined.

(** Rows split by a test are the rows, up to order. *)
Lemma split_by_test {A : Type} (test : A -> bool) (rows : list A) :
  Permutation (filter test rows ++ filter (fun a => negb (test a)) rows) rows.
Proof.
  induction rows as [|a rows IH]; [constructor|]. cbn [filter].
  destruct (test a); cbn [negb app].
  - now constructor.
  - apply Permutation_sym, Permutation_cons_app, Permutation_sym, IH.
Qed.

(** Laps grouped by the drivers they point to are the laps, up to order,
    when the drivers have different identifiers and no lap is orphaned. *)
Lemma laps_grouped_by_driver ds ls :
  NoDup (map DriverDB_id ds) ->
  (forall l, In l ls -> In (LapDB_driver_id l) (map DriverDB_id ds)) ->
  Permutation
    (List.concat
       (map (fun d => filter (fun l => LapDB_driver_id l =? DriverDB_id d) ls)
            ds))
    ls.
Proof.
  revert ls. induction ds as [|d ds IH]; intros ls Hkeys Hfk.
  - destruct ls as [|l ls]; [constructor|].
    destruct (Hfk l (or_introl eq_refl)).
  - cbn [map List.concat]. cbn [map] in Hkeys.
    inversion Hkeys as [|? ? Hd Hds]; subst.
    set (rest := filter (fun l => negb (LapDB_driver_id l =? DriverDB_id d))
                        ls).
    rewrite (map_ext_in _
               (fun d' => filter (fun l => LapDB_driver_id l =? DriverDB_id d')
                                 rest)).
    + rewrite (IH rest Hds).
      * apply split_by_test.
      * intros l Hin. unfold rest in Hin. apply filter_In in Hin.
        destruct Hin as [Hin Hne].
        apply negb_true_iff, String.eqb_neq in Hne.
        destruct (Hfk l Hin) as [Heq | Hrest]; [congruence | assumption].
    + intros d' Hd'. unfold rest. rewrite filter_twice.
      apply filter_ext. intros l.
      destruct (LapDB_driver_id l =? DriverDB_id d') eqn:E;
        [|now rewrite andb_false_r].
      rewrite andb_true_r. symmetry. apply negb_true_iff, String.eqb_neq.
      apply String.eqb_eq in E. rewrite E. intros Heq.
      apply Hd. rewrite <- Heq. now apply in_map.
Qed.

(** X5. In a reachable state the laps that [get_drivers] shows under the
    drivers are, together, the laps of the table, each one once: no lap is
    left out and none is shown under two drivers. *)
Theorem get_drivers_shows_every_lap_once db :
  reachable db ->
  exists ds,
    get_db get_drivers db = (Ok ds, db) /\
    Permutation (List.concat (map Driver_laps ds)) (map Lap_from (laps db)).
Proof.
  intros Hreach. apply reachable_consistent in Hreach.
  exists (map (Driver_view db) (drivers db)). rewrite get_drivers_eq.
  split; [reflexivity|]. rewrite map_map. unfold Driver_view.
  cbn [Driver_laps]. unfold laps_of.
  rewrite <- (map_map (fun d => filter (fun l => LapDB_driver_id l
                                                 =? DriverDB_id d) (laps db))
                      (map Lap_from)).
  rewrite <- concat_map. apply Permutation_map.
  apply laps_grouped_by_driver.
  - exact (drivers_pk _ Hreach).
  - exact (laps_fk _ Hreach).
Qed.

Lemma get_drivers_shows_every_lap_once_witness :
  exists ds,
    get_db get_drivers example_db = (Ok ds, example_db) /\
    Permutation (List.concat (map Driver_laps ds))
                (map Lap_from (laps example_db)).
Proof.
  apply (get_drivers_shows_every_lap_once example_db).
  exists example_trace. reflexivity.
Defined.

(** ** Writes and the reads that follow *)

(** X6. [update_driver] on a driver that exists answers the driver with the
    new name, the same [id] and the same laps as [get_driver] showed
    before; [get_driver] then answers the same driver; the laps table is
    untouched and [get_driver] on any other identifier answers as
    before. *)
Theorem update_driver_then_get_driver db i u :
  In i (driver_ids db) ->
  exists D db1,
    get_db (update_driver i u) db = (Ok D, db1) /\
    get_db (get_driver i) db1 = (Ok D, db1) /\
    Driver_name D = DriverUpdate_name u /\
    Driver_id D = Some i /\
    (forall D0, get_db (get_driver i) db = (Ok D0, db) ->
                Driver_laps D = Driver_laps D0) /\
    laps db1 = laps db /\
    (forall j, j <> i ->
       fst (get_db (get_driver j) db1) = fst (get_db (get_driver j) db)).
Proof.
  intros Hin. destruct (first_driver_found db i Hin) as [row E].
  do 2 eexists. rewrite update_driver_eq, E. cbv zeta.
  split; [reflexivity|]. rewrite !get_driver_eq.
  rewrite (first_driver_renamed _ (DriverUpdate_name u) _ _ E).
  split; [reflexivity|]. split; [reflexivity|]. split; [reflexivity|].
  split; [|split; [reflexivity|]].
  - intros D0. rewrite E. intros [= <-].
    apply first_driver_some in E. destruct E as [_ <-]. reflexivity.
  - intros j Hj. rewrite !get_driver_eq, first_driver_renamed_other by exact Hj.
    reflexivity.
Qed.

Lemma update_driver_then_get_driver_witness :
  exists D db1,
    get_db (update_driver (new_id 4) {| DriverUpdate_name := "Max" |})
           example_db = (Ok D, db1) /\
    get_db (get_driver (new_id 4)) db1 = (Ok D, db1) /\
    Driver_name D = "Max" /\
    Driver_id D = Some (new_id 4) /\
    (forall D0, get_db (get_driver (new_id 4)) example_db
                = (Ok D0, example_db) ->
                Driver_laps D = Driver_laps D0) /\
    laps db1 = laps example_db /\
    (forall j, j <> new_id 4 ->
       fst (get_db (get_driver j) db1)
       = fst (get_db (get_driver j) example_db)).
Proof.
  apply (update_driver_then_get_driver example_db (new_id 4)
           {| DriverUpdate_name := "Max" |}).
  vm_compute. right. left. reflexivity.
Defined.

(** X7. [update_lap] on a lap that exists under the driver, with a
    [lap_time] that the column keeps (any but NaN), answers the lap with
    its [id], the new [track] and the [lap_time] the column keeps (the one
    supplied, unless that is -0.0); [get_lap] then answers the same lap;
    the drivers are untouched, [get_lap] on any other lap identifier
    answers as before, and [get_laps] lists the same identifiers in the
    same order for every driver. *)
Theorem update_lap_then_get_lap db i l u row t :
  In row (laps db) -> LapDB_id row = l -> LapDB_driver_id row = i ->
  stored_real (LapUpdate_lap_time u) = Some t ->
  exists db1,
    let x := {| Lap_id := Some l;
                Lap_lap_time := t;
                Lap_track := LapUpdate_track u |} in
    get_db (update_lap i l u) db = (Ok x, db1) /\
    get_db (get_lap i l) db1 = (Ok x, db1) /\
    (LapUpdate_lap_time u <> S754_zero true -> t = LapUpdate_lap_time u) /\
    drivers db1 = drivers db /\
    (forall j k, k <> l ->
       fst (get_db (get_lap j k) db1) = fst (get_db (get_lap j k) db)) /\
    (forall j ls ls',
       get_db (get_laps j) db = (Ok ls, db) ->
       get_db (get_laps j) db1 = (Ok ls', db1) ->
       map Lap_id ls' = map Lap_id ls).
Proof.
  intros Hin Hid Hown S.
  destruct (first_lap_found db l i row Hin Hid Hown) as [row1 E].
  exists (retimed l (LapUpdate_kept t u) db). cbv zeta.
  rewrite update_lap_eq, E, S.
  split; [reflexivity|]. rewrite get_lap_eq.
  rewrite (first_lap_retimed_same _ _ (LapUpdate_kept t u) _ _ E).
  split; [reflexivity|]. split; [exact (stored_real_as_written _ _ S)|].
  split; [reflexivity|]. split.
  - intros j k Hk. rewrite !get_lap_eq, first_lap_retimed_other by exact Hk.
    reflexivity.
  - intros j ls ls'. rewrite !get_laps_eq.
    change (first_driver j (retimed l (LapUpdate_kept t u) db))
      with (first_driver j db).
    destruct (first_driver j db); [|discriminate].
    intros [= <-] [= <-]. rewrite !map_map.
    rewrite <- !(map_map LapDB_id Some). f_equal.
    apply ids_of_laps_of_retimed.
Qed.

Lemma update_lap_then_get_lap_witness :
  exists db1,
    let x := {| Lap_id := Some (new_id 3);
                Lap_lap_time := lap_time_78_1;
                Lap_track := "Spa" |} in
    get_db (update_lap (new_id 1) (new_id 3)
              {| LapUpdate_lap_time := lap_time_78_1;
                 LapUpdate_track := "Spa" |}) example_db = (Ok x, db1) /\
    get_db (get_lap (new_id 1) (new_id 3)) db1 = (Ok x, db1) /\
    (lap_time_78_1 <> S754_zero true -> lap_time_78_1 = lap_time_78_1) /\
    drivers db1 = drivers example_db /\
    (forall j k, k <> new_id 3 ->
       fst (get_db (get_lap j k) db1)
       = fst (get_db (get_lap j k) example_db)) /\
    (forall j ls ls',
       get_db (get_laps j) example_db = (Ok ls, example_db) ->
       get_db (get_laps j) db1 = (Ok ls', db1) ->
       map Lap_id ls' = map Lap_id ls).
Proof.
  apply (update_lap_then_get_lap example_db (new_id 1) (new_id 3)
           {| LapUpdate_lap_time := lap_time_78_1;
              LapUpdate_track := "Spa" |}
           {| LapDB_id := new_id 3;
              LapDB_lap_time := lap_time_86_2;
              LapDB_track := "Monza";
              LapDB_driver_id := new_id 1 |}).
  - vm_compute. right. left. reflexivity.
  - reflexivity.
  - reflexivity.
  - reflexivity.
Defined.

(** X8. In a reachable state [delete_lap] on a lap that exists under the
    driver removes that lap and nothing else: one row less in the laps
    table, the drivers untouched, [get_lap] on any other lap identifier
    answers as before.  The lap is then gone for every driver, and a second
    [delete_lap] raises "Lap not found". *)
Theorem delete_lap_removes_one_lap db i l row :
  reachable db ->
  In row (laps db) -> LapDB_id row = l -> LapDB_driver_id row = i ->
  exists db1,
    get_db (delete_lap i l) db = (Ok {| detail := "Lap deleted" |}, db1) /\
    List.length (laps db1) + 1 = List.length (laps db) /\
    drivers db1 = drivers db /\
    (forall j, get_db (get_lap j l) db1 = (Raised LapNotFound, db1)) /\
    get_db (delete_lap i l) db1 = (Raised LapNotFound, db1) /\
    (forall j k, k <> l ->
       fst (get_db (get_lap j k) db1) = fst (get_db (get_lap j k) db)).
Proof.
  intros Hreach Hin Hid Hown. apply reachable_consistent in Hreach.
  destruct (first_lap_found db l i row Hin Hid Hown) as [row1 E].
  exists (without_laps [l] db). rewrite !delete_lap_eq, E.
  rewrite first_lap_without_same.
  split; [reflexivity|]. split; [|split; [reflexivity|]].
  - unfold without_laps. cbn [laps existsb].
    rewrite (filter_ext _ (fun x => negb (LapDB_id x =? l)))
      by (intros x; now rewrite orb_false_r).
    apply one_row_less; [exact (laps_pk _ Hreach)|].
    subst l. now apply in_map.
  - split; [|split; [reflexivity|]].
    + intros j. now rewrite get_lap_eq, first_lap_without_same.
    + intros j k Hk.
      rewrite !get_lap_eq, first_lap_without_other by exact Hk.
      reflexivity.
Qed.

Lemma delete_lap_removes_one_lap_witness :
  exists db1,
    get_db (delete_lap (new_id 1) (new_id 2)) example_db
      = (Ok {| detail := "Lap deleted" |}, db1) /\
    List.length (laps db1) + 1 = List.length (laps example_db) /\
    drivers db1 = drivers example_db /\
    (forall j, get_db (get_lap j (new_id 2)) db1
               = (Raised LapNotFound, db1)) /\
    get_db (delete_lap (new_id 1) (new_id 2)) db1
      = (Raised LapNotFound, db1) /\
    (forall j k, k <> new_id 2 ->
       fst (get_db (get_lap j k) db1)
       = fst (get_db (get_lap j k) example_db)).
Proof.
  apply (delete_lap_removes_one_lap example_db (new_id 1) (new_id 2)
           {| LapDB_id := new_id 2;
              LapDB_lap_time := lap_time_85_4;
              LapDB_track := "Silverstone";
              LapDB_driver_id := new_id 1 |}).
  - exists example_trace. reflexivity.
  - vm_compute. left. reflexivity.
  - reflexivity.
  - reflexivity.
Defined.

Lemma laps_of_without_other D j db :
  consistent db -> j <> D -> laps_of j (without_driver D db) = laps_of j db.
Proof.
  intros ok HjD. unfold laps_of. rewrite (laps_without_driver db ok D).
  rewrite filter_twice. apply filter_ext. intros l.
  destruct (LapDB_driver_id l =? j) eqn:E; [|apply andb_false_r].
  rewrite andb_true_r. apply negb_true_iff, String.eqb_neq.
  apply String.eqb_eq in E. congruence.
Qed.

(** X9. In a reachable state the cascade of [delete_driver] stays within
    the driver: for every other identifier, [get_driver] and [get_laps]
    answer after the deletion what they answered before it.  A second
    [delete_driver] on the same identifier raises "Driver not found". *)
Theorem delete_driver_spares_the_others db D :
  reachable db ->
  In D (driver_ids db) ->
  let db1 := after db (DELETE_driver D) in
  (forall j, j <> D ->
     fst (get_db (get_driver j) db1) = fst (get_db (get_driver j) db) /\
     fst (get_db (get_laps j) db1) = fst (get_db (get_laps j) db)) /\
  get_db (delete_driver D) db1 = (Raised DriverNotFound, db1).
Proof.
  intros Hreach HD. apply reachable_consistent in Hreach. cbv zeta.
  unfold after. cbn [serve]. rewrite delete_driver_eq.
  destruct (first_driver_found db D HD) as [row E]. rewrite E.
  cbn [answer snd]. split.
  - intros j Hj. rewrite !get_driver_eq, !get_laps_eq.
    rewrite first_driver_without_other by exact Hj.
    unfold Driver_view. rewrite laps_of_without_other by assumption.
    destruct (first_driver j db) as [r|] eqn:F; [|split; reflexivity].
    cbn [fst]. split; [|reflexivity].
    rewrite laps_of_without_other; [reflexivity | assumption |].
    apply first_driver_some in F. destruct F as [_ ->]. exact Hj.
  - rewrite delete_driver_eq.
    replace (first_driver D (without_driver D db)) with (@None DriverDB)
      by (symmetry; apply first_driver_none, driver_gone).
    reflexivity.
Qed.

Lemma delete_driver_spares_the_others_witness :
  let db1 := after example_db (DELETE_driver (new_id 1)) in
  (forall j, j <> new_id 1 ->
     fst (get_db (get_driver j) db1)
     = fst (get_db (get_driver j) example_db) /\
     fst (get_db (get_laps j) db1)
     = fst (get_db (get_laps j) example_db)) /\
  get_db (delete_driver (new_id 1)) db1 = (Raised DriverNotFound, db1).
Proof.
  apply (delete_driver_spares_the_others example_db (new_id 1)).
  - exists example_trace. reflexivity.
  - vm_compute. left. reflexivity.
Defined.

Lemma first_driver_with_driver_old row j db :
  In j (driver_ids db) ->
  first_driver j (with_driver row db) = first_driver j db.
Proof.
  intros Hj. destruct (first_driver_found db j Hj) as [r E].
  unfold first_driver, with_driver in *. cbn [drivers].
  now rewrite find_snoc, E.
Qed.

(** X10. In a reachable state a driver that [create_driver] answers has the
    name of the request and no laps; [get_laps] on its [id] answers the
    empty list; the laps table is untouched and [get_driver] on the
    identifier of any driver that existed answers as before. *)
Theorem created_driver_has_no_laps db r driver D db1 :
  reachable db ->
  get_db (create_driver r driver) db = (Ok D, db1) ->
  Driver_name D = DriverCreate_name driver /\
  Driver_laps D = [] /\
  get_db (get_laps (new_id r)) db1 = (Ok [], db1) /\
  laps db1 = laps db /\
  (forall j, In j (driver_ids db) ->
     fst (get_db (get_driver j) db1) = fst (get_db (get_driver j) db)).
Proof.
  intros Hreach. apply reachable_consistent in Hreach.
  rewrite create_driver_eq.
  destruct (has_driver (new_id r) db) eqn:E; [discriminate|].
  cbv zeta. intros [= <- <-].
  assert (Hnone : laps_of (new_id r) db = []).
  { unfold laps_of. destruct (filter _ _) as [|l ls] eqn:F; [reflexivity|].
    assert (Hl : In l (l :: ls)) by now left.
    rewrite <- F in Hl. apply filter_In in Hl. destruct Hl as [Hin Hown].
    apply String.eqb_eq in Hown. apply has_driver_false in E.
    exfalso. apply E. rewrite <- Hown. exact (laps_fk _ Hreach l Hin). }
  split; [reflexivity|]. split.
  - cbn [Driver_view Driver_laps new_driver DriverDB_id].
    change (laps_of (new_id r) (with_driver (new_driver r driver) db))
      with (laps_of (new_id r) db).
    now rewrite Hnone.
  - split; [|split; [reflexivity|]].
    + rewrite get_laps_eq.
      change (new_id r) with (DriverDB_id (new_driver r driver)) at 1.
      rewrite first_driver_new by exact E.
      change (laps_of (new_id r) (with_driver (new_driver r driver) db))
        with (laps_of (new_id r) db).
      now rewrite Hnone.
    + intros j Hj. rewrite !get_driver_eq.
      rewrite first_driver_with_driver_old by exact Hj. reflexivity.
Qed.

Lemma created_driver_has_no_laps_witness :
  Driver_name {| Driver_name := "Lando Norris";
                 Driver_id := Some (new_id 6);
                 Driver_laps := [] |} = "Lando Norris" /\
  Driver_laps {| Driver_name := "Lando Norris";
                 Driver_id := Some (new_id 6);
                 Driver_laps := [] |} = [] /\
  get_db (get_laps (new_id 6))
         (after example_db
            (POST_drivers 6 {| DriverCreate_name := "Lando Norris" |}))
  = (Ok [], after example_db
              (POST_drivers 6 {| DriverCreate_name := "Lando Norris" |})) /\
  laps (after example_db
          (POST_drivers 6 {| DriverCreate_name := "Lando Norris" |}))
  = laps example_db /\
  (forall j, In j (driver_ids example_db) ->
     fst (get_db (get_driver j)
            (after example_db
               (POST_drivers 6 {| DriverCreate_name := "Lando Norris" |})))
     = fst (get_db (get_driver j) example_db)).
Proof.
  apply (created_driver_has_no_laps example_db 6
           {| DriverCreate_name := "Lando Norris" |}).
  - exists example_trace. reflexivity.
  - vm_compute. reflexivity.
Defined.

(** ** What no request does *)

Lemma after_minted db rq : minted db -> minted (after db rq).
Proof.
  intros [Hd Hl]. unfold after. destruct rq; cbn [serve].
  - rewrite lifespan_eq. destruct (Nat.eqb _ _); [|now split].
    destruct (_ || _ || _); [now split|]. cbn [answer snd].
    unfold with_laps, with_driver, seed_laps, seed_driver.
    split; cbn [drivers laps]; intros x Hin; apply in_app_or in Hin.
    + destruct Hin as [Hin | [<- | []]]; [auto | eexists; reflexivity].
    + destruct Hin as [Hin | [<- | [<- | []]]];
        [auto | eexists; reflexivity | eexists; reflexivity].
  - rewrite create_driver_eq. destruct (has_driver _ _); [now split|].
    cbn [answer snd]. split; [|exact Hl]. unfold with_driver. cbn [drivers].
    intros x Hin. apply in_app_or in Hin.
    destruct Hin as [Hin | [<- | []]]; [auto | eexists; reflexivity].
  - rewrite get_drivers_eq. now split.
  - rewrite get_driver_eq. destruct (first_driver _ _); now split.
  - rewrite update_driver_eq. destruct (first_driver _ _); [|now split].
    cbn [answer snd]. split; [|exact Hl]. unfold renamed. cbn [drivers].
    intros x Hin. apply in_map_iff in Hin. destruct Hin as [y [<- Hin]].
    rewrite set_name_id. auto.
  - rewrite delete_driver_eq. destruct (first_driver _ _); [|now split].
    cbn [answer snd]. unfold without_driver, without_laps.
    split; cbn [drivers laps]; intros x Hin; apply filter_In in Hin;
      destruct Hin as [Hin _]; auto.
  - rewrite create_lap_eq. destruct (first_driver _ _); [|now split].
    destruct (has_lap _ _); [now split|].
    destruct (stored_real _) as [t|]; [|now split]. cbn [answer snd].
    split; [exact Hd|]. unfold with_laps. cbn [laps].
    intros x Hin. apply in_app_or in Hin.
    destruct Hin as [Hin | [<- | []]]; [auto | eexists; reflexivity].
  - rewrite get_laps_eq. destruct (first_driver _ _); now split.
  - rewrite get_lap_eq. destruct (first_lap _ _ _); now split.
  - rewrite update_lap_eq. destruct (first_lap _ _ _); [|now split].
    destruct (stored_real _) as [t|]; [|now split].
    cbn [answer snd]. split; [exact Hd|]. unfold retimed. cbn [laps].
    intros x Hin. apply in_map_iff in Hin. destruct Hin as [y [<- Hin]].
    rewrite set_fields_id. auto.
  - rewrite delete_lap_eq. destruct (first_lap _ _ _); [|now split].
    cbn [answer snd]. split; [exact Hd|]. unfold without_laps. cbn [laps].
    intros x Hin. apply filter_In in Hin. destruct Hin as [Hin _]. auto.
Qed.

Lemma run_minted trace db : minted db -> minted (run trace db).
Proof.
  revert db. induction trace as [|rq trace IH]; intros db H; [exact H|].
  cbn [run fold_left]. apply IH. now apply after_minted.
Qed.

(** X11. No request stores an identifier that a client chose.  In every
    reachable state the [id] of every driver and of every lap, and the
    [driver_id] of every lap, came out of [str(uuid.uuid4())], and so is
    thirty-six characters long. *)
Theorem stored_ids_are_uuids db :
  reachable db ->
  (forall d, In d (drivers db) ->
     (exists r, DriverDB_id d = new_id r) /\
     String.length (DriverDB_id d) = 36) /\
  (forall l, In l (laps db) ->
     (exists r, LapDB_id l = new_id r) /\
     (exists r, LapDB_driver_id l = new_id r) /\
     String.length (LapDB_id l) = 36 /\
     String.length (LapDB_driver_id l) = 36).
Proof.
  intros Hreach. pose proof (reachable_consistent _ Hreach) as ok.
  destruct Hreach as [trace <-].
  assert (H : minted (run trace empty_database))
    by (apply run_minted; split; intros x []).
  destruct H as [Hd Hl]. split.
  - intros d Hin. destruct (Hd d Hin) as [r Hr].
    split; [eauto|]. rewrite Hr. apply str_length.
  - intros l Hin. destruct (Hl l Hin) as [r Hr].
    pose proof (laps_fk _ ok l Hin) as Hfk. unfold driver_ids in Hfk.
    apply in_map_iff in Hfk. destruct Hfk as [d [Hid Hdin]].
    destruct (Hd d Hdin) as [r' Hr']. rewrite Hid in Hr'.
    split; [eauto|]. split; [eauto|].
    rewrite Hr, Hr'. split; apply str_length.
Qed.

Lemma stored_ids_are_uuids_witness :
  (forall d, In d (drivers example_db) ->
     (exists r, DriverDB_id d = new_id r) /\
     String.length (DriverDB_id d) = 36) /\
  (forall l, In l (laps example_db) ->
     (exists r, LapDB_id l = new_id r) /\
     (exists r, LapDB_driver_id l = new_id r) /\
     String.length (LapDB_id l) = 36 /\
     String.length (LapDB_driver_id l) = 36).
Proof.
  apply (stored_ids_are_uuids example_db).
  exists example_trace. reflexivity.
Defined.

(** X12. No request moves a lap to another driver.  From a reachable
    state, a lap that is stored after a request under an identifier that
    was stored before it has the [driver_id] it had: [update_lap] writes
    [lap_time] and [track] only, and a new lap never takes the identifier
    of a stored one. *)
Theorem no_request_moves_a_lap db rq l l' :
  reachable db ->
  In l (laps db) ->
  In l' (laps (after db rq)) ->
  LapDB_id l' = LapDB_id l ->
  LapDB_driver_id l' = LapDB_driver_id l.
Proof.
  intros Hreach Hin Hin' Hid. apply reachable_consistent in Hreach.
  assert (Hold : In l' (laps db) -> LapDB_driver_id l' = LapDB_driver_id l).
  { intros H. f_equal.
    apply (unique_keys_row LapDB_id (laps db));
      [exact (laps_pk _ Hreach) | assumption | assumption | assumption]. }
  assert (Hnew : forall k, has_lap k db = false -> LapDB_id l' <> k).
  { intros k Hk Heq. apply has_lap_false in Hk. apply Hk.
    rewrite <- Heq, Hid. unfold lap_ids. now apply in_map. }
  revert Hin'. unfold after. destruct rq; cbn [serve].
  - rewrite lifespan_eq. destruct (Nat.eqb _ _); [|exact Hold].
    destruct (_ || _ || _) eqn:X; [exact Hold|]. cbn [answer snd].
    apply orb_false_iff in X. destruct X as [X _].
    apply orb_false_iff in X. destruct X as [H1 H2].
    unfold with_laps, with_driver, seed_laps. cbn [laps]. intros H.
    apply in_app_or in H. destruct H as [H | [<- | [<- | []]]]; [auto | | ].
    + exfalso. now apply (Hnew _ H1).
    + exfalso. now apply (Hnew _ H2).
  - rewrite create_driver_eq. destruct (has_driver _ _); exact Hold.
  - rewrite get_drivers_eq. exact Hold.
  - rewrite get_driver_eq. destruct (first_driver _ _); exact Hold.
  - rewrite update_driver_eq. destruct (first_driver _ _); exact Hold.
  - rewrite delete_driver_eq. destruct (first_driver _ _); [|exact Hold].
    cbn [answer snd]. unfold without_driver, without_laps. cbn [laps].
    intros H. apply filter_In in H. destruct H as [H _]. auto.
  - rewrite create_lap_eq. destruct (first_driver _ _); [|exact Hold].
    destruct (has_lap _ _) eqn:E; [exact Hold|].
    destruct (stored_real _) as [t|]; [|exact Hold]. cbn [answer snd].
    unfold with_laps. cbn [laps]. intros H.
    apply in_app_or in H. destruct H as [H | [<- | []]]; [auto|].
    exfalso. now apply (Hnew _ E).
  - rewrite get_laps_eq. destruct (first_driver _ _); exact Hold.
  - rewrite get_lap_eq. destruct (first_lap _ _ _); exact Hold.
  - rewrite update_lap_eq. destruct (first_lap _ _ _); [|exact Hold].
    destruct (stored_real _) as [t|]; [|exact Hold].
    cbn [answer snd]. unfold retimed. cbn [laps]. intros H.
    apply in_map_iff in H. destruct H as [y [<- Hy]].
    rewrite set_fields_id in Hid. rewrite set_fields_owner. f_equal.
    apply (unique_keys_row LapDB_id (laps db));
      [exact (laps_pk _ Hreach) | assumption | assumption | assumption].
  - rewrite delete_lap_eq. destruct (first_lap _ _ _); [|exact Hold].
    cbn [answer snd]. unfold without_laps. cbn [laps].
    intros H. apply filter_In in H. destruct H as [H _]. auto.
Qed.

Lemma no_request_moves_a_lap_witness :
  LapDB_driver_id {| LapDB_id := new_id 3;
                     LapDB_lap_time := lap_time_78_1;
                     LapDB_track := "Spa";
                     LapDB_driver_id := new_id 1 |}
  = LapDB_driver_id {| LapDB_id := new_id 3;
                       LapDB_lap_time := lap_time_86_2;
                       LapDB_track := "Monza";
                       LapDB_driver_id := new_id 1 |}.
Proof.
  apply (no_request_moves_a_lap example_db
           (PUT_lap (new_id 1) (new_id 3)
              {| LapUpdate_lap_time := lap_time_78_1;
                 LapUpdate_track := "Spa" |})).
  - exists example_trace. reflexivity.
  - vm_compute. right. left. reflexivity.
  - vm_compute. right. left. reflexivity.
  - reflexivity.
Defined.

(** ** Reads that agree *)

(** X13. In a reachable state [get_laps] and [get_lap] agree: when
    [get_laps driver_id] answers a list, a lap is in the list when, and only
    when, [get_lap] under that [driver_id] answers it for some [lap_id]. *)
Theorem get_laps_lists_get_lap db i ls :
  reachable db ->
  get_db (get_laps i) db = (Ok ls, db) ->
  forall x, In x ls <-> exists k, get_db (get_lap i k) db = (Ok x, db).
Proof.
  intros Hreach. apply reachable_consistent in Hreach.
  rewrite get_laps_eq. destruct (first_driver i db); [|discriminate].
  intros [= <-] x. rewrite in_map_iff. split.
  - intros [row [<- Hin]]. apply in_laps_of in Hin. destruct Hin as [Hin Hown].
    exists (LapDB_id row). rewrite get_lap_eq.
    destruct (first_lap_found db _ i row Hin eq_refl Hown) as [row' E].
    rewrite E. apply first_lap_some in E. destruct E as [Hin' [Hid _]].
    assert (row' = row)
      by (apply (unique_keys_row LapDB_id (laps db));
          [exact (laps_pk _ Hreach) | assumption | assumption | assumption]).
    now subst row'.
  - intros [k H]. rewrite get_lap_eq in H.
    destruct (first_lap k i db) as [row|] eqn:E; [|discriminate].
    apply first_lap_some in E. destruct E as [Hin [_ Hown]].
    exists row. split; [congruence|]. apply in_laps_of. auto.
Qed.

Lemma get_laps_lists_get_lap_witness :
  In {| Lap_id := Some (new_id 5);
        Lap_lap_time := lap_time_78_1;
        Lap_track := "Spa" |}
     [ {| Lap_id := Some (new_id 5);
          Lap_lap_time := lap_time_78_1;
          Lap_track := "Spa" |} ] <->
  exists k, get_db (get_lap (new_id 4) k) example_db
            = (Ok {| Lap_id := Some (new_id 5);
                     Lap_lap_time := lap_time_78_1;
                     Lap_track := "Spa" |}, example_db).
Proof.
  apply (get_laps_lists_get_lap example_db (new_id 4)).
  - exists example_trace. reflexivity.
  - vm_compute. reflexivity.
Defined.

(** ** Writes that follow writes *)

Lemma set_name_over i a b d : set_name i b (set_name i a d) = set_name i b d.
Proof.
  unfold set_name at 2. destruct (DriverDB_id d =? i) eqn:E; [|reflexivity].
  unfold set_name. cbn [DriverDB_id]. now rewrite E.
Qed.

Lemma set_fields_over i t k t' k' l :
  set_fields i t' k' (set_fields i t k l) = set_fields i t' k' l.
Proof.
  unfold set_fields at 2. destruct (LapDB_id l =? i) eqn:E; [|reflexivity].
  unfold set_fields. cbn [LapDB_id LapDB_driver_id]. now rewrite E.
Qed.

Lemma renamed_over i a b db : renamed i b (renamed i a db) = renamed i b db.
Proof.
  unfold renamed. cbn [drivers laps]. f_equal.
  rewrite map_map. apply map_ext. intros d. apply set_name_over.
Qed.

Lemma retimed_over l u1 u2 db :
  retimed l u2 (retimed l u1 db) = retimed l u2 db.
Proof.
  unfold retimed. cbn [drivers laps]. f_equal.
  rewrite map_map. apply map_ext. intros x. apply set_fields_over.
Qed.

Lemma stored_real_kept x : x <> S754_nan -> exists t, stored_real x = Some t.
Proof.
  destruct x; cbn [stored_real]; intros H; eauto. now contradiction H.
Qed.

(** X14. The last update wins.  [update_driver] after an [update_driver]
    on the same identifier answers and commits what it would have without
    the earlier update, whether the driver exists or not.  So does
    [update_lap] after an [update_lap] on the same identifiers, when its
    own [lap_time] is not a NaN (with a NaN it fails and what the earlier
    update wrote stays). *)
Theorem last_update_wins db :
  (forall i u1 u2,
     serve (PUT_driver i u2) (after db (PUT_driver i u1))
     = serve (PUT_driver i u2) db) /\
  (forall i l u1 u2,
     LapUpdate_lap_time u2 <> S754_nan ->
     serve (PUT_lap i l u2) (after db (PUT_lap i l u1))
     = serve (PUT_lap i l u2) db).
Proof.
  split.
  - intros i u1 u2. unfold after. cbn [serve]. rewrite !update_driver_eq.
    destruct (first_driver i db) as [row|] eqn:E; cbn [answer snd].
    + rewrite (first_driver_renamed _ (DriverUpdate_name u1) _ _ E).
      cbv zeta. now rewrite renamed_over.
    + now rewrite E.
  - intros i l u1 u2 H2. destruct (stored_real_kept _ H2) as [t2 S2].
    unfold after. cbn [serve]. rewrite !update_lap_eq, S2.
    destruct (first_lap l i db) as [row|] eqn:E; cbn [answer snd].
    + destruct (stored_real (LapUpdate_lap_time u1)) as [t1|];
        cbn [answer snd].
      * rewrite (first_lap_retimed_same _ _ (LapUpdate_kept t1 u1) _ _ E).
        now rewrite retimed_over.
      * now rewrite E.
    + now rewrite E.
Qed.

Lemma last_update_wins_witness :
  serve (PUT_driver (new_id 4) {| DriverUpdate_name := "Max" |})
        (after example_db
           (PUT_driver (new_id 4) {| DriverUpdate_name := "M. V." |}))
  = serve (PUT_driver (new_id 4) {| DriverUpdate_name := "Max" |})
          example_db /\
  serve (PUT_lap (new_id 1) (new_id 3)
           {| LapUpdate_lap_time := lap_time_78_1;
              LapUpdate_track := "Spa" |})
        (after example_db
           (PUT_lap (new_id 1) (new_id 3)
              {| LapUpdate_lap_time := S754_nan;
                 LapUpdate_track := "Imola" |}))
  = serve (PUT_lap (new_id 1) (new_id 3)
             {| LapUpdate_lap_time := lap_time_78_1;
                LapUpdate_track := "Spa" |}) example_db.
Proof.
  destruct (last_update_wins example_db) as [Hdriver Hlap].
  split.
  - apply Hdriver.
  - apply Hlap. discriminate.
Defined.

(** ** A new lap *)

(** X15. A lap that [create_lap] answers is the last of its driver's laps:
    [get_laps] on that driver then answers the list it answered before with
    the new lap at its end.  The drivers are untouched and [get_laps] on any
    other identifier answers as before. *)
Theorem created_lap_is_last db r i lap L db1 :
  get_db (create_lap r i lap) db = (Ok L, db1) ->
  exists ls,
    get_db (get_laps i) db = (Ok ls, db) /\
    get_db (get_laps i) db1 = (Ok (ls ++ [L]), db1) /\
    drivers db1 = drivers db /\
    (forall j, j <> i ->
       fst (get_db (get_laps j) db1) = fst (get_db (get_laps j) db)).
Proof.
  rewrite create_lap_eq.
  destruct (first_driver i db) as [row|] eqn:E; [|discriminate].
  destruct (has_lap (new_id r) db); [discriminate|].
  destruct (stored_real _) as [t|]; [|discriminate].
  intros [= <- <-]. exists (map Lap_from (laps_of i db)).
  rewrite !get_laps_eq.
  change (first_driver i (with_laps [new_lap r i (LapCreate_kept t lap)] db))
    with (first_driver i db).
  rewrite E. split; [reflexivity|]. split; [|split; [reflexivity|]].
  - unfold laps_of, with_laps. cbn [laps]. rewrite filter_app.
    cbn [filter new_lap LapDB_driver_id]. rewrite String.eqb_refl.
    now rewrite map_app.
  - intros j Hj. rewrite !get_laps_eq.
    change (first_driver j (with_laps [new_lap r i (LapCreate_kept t lap)] db))
      with (first_driver j db).
    destruct (first_driver j db); [|reflexivity]. cbn [fst]. do 2 f_equal.
    unfold laps_of, with_laps. cbn [laps]. rewrite filter_app.
    cbn [filter new_lap LapDB_driver_id].
    replace (i =? j) with false; [apply app_nil_r|].
    symmetry. apply String.eqb_neq. congruence.
Qed.

Lemma created_lap_is_last_witness :
  exists ls,
    get_db (get_laps (new_id 1)) example_db = (Ok ls, example_db) /\
    get_db (get_laps (new_id 1))
           (after example_db
              (POST_laps 7 (new_id 1)
                 {| LapCreate_lap_time := lap_time_78_1;
                    LapCreate_track := "Spa" |}))
    = (Ok (ls ++ [ {| Lap_id := Some (new_id 7);
                      Lap_lap_time := lap_time_78_1;
                      Lap_track := "Spa" |} ]),
       after example_db
         (POST_laps 7 (new_id 1)
            {| LapCreate_lap_time := lap_time_78_1;
               LapCreate_track := "Spa" |})) /\
    drivers (after example_db
               (POST_laps 7 (new_id 1)
                  {| LapCreate_lap_time := lap_time_78_1;
                     LapCreate_track := "Spa" |}))
    = drivers example_db /\
    (forall j, j <> new_id 1 ->
       fst (get_db (get_laps j)
              (after example_db
                 (POST_laps 7 (new_id 1)
                    {| LapCreate_lap_time := lap_time_78_1;
                       LapCreate_track := "Spa" |})))
       = fst (get_db (get_laps j) example_db)).
Proof.
  apply (created_lap_is_last example_db 7 (new_id 1)
           {| LapCreate_lap_time := lap_time_78_1;
              LapCreate_track := "Spa" |}).
  vm_compute. reflexivity.
Defined.
